(** * Community maintenance of graphiti: a shallow embedding

    Embeds [graphiti_core/utils/maintenance/community_operations.py] and the
    lookup/delete wrappers of [server/graph_service/zep_graphiti.py].

    The Python code is a sequence of awaited calls to external collaborators
    (the graph driver, the language model, the embedder, the clock).  Every
    such call is recorded as an event; a collaborator answers as a function
    of the history of events issued before the call, so the model covers any
    deterministic stateful store or service.  A computation maps the history
    to an outcome and the list of events it issued. *)

From stdpp Require Import base strings pretty list gmap.
From Stdlib Require Import ZArith Lia.

Local Open Scope string_scope.
Local Open Scope list_scope.
Local Open Scope nat_scope.

(** ** Values, records and exceptions *)

(** A field of a query result. *)
Inductive Value :=
| VNone
| VStr (s : string)
| VInt (z : Z).

#[global] Instance Value_eq_dec : EqDecision Value.
Proof. solve_decision. Defined.

(** A query result row: field name to value. *)
Abbreviation Record := (gmap string Value).

(** The dictionary returned by the language model. *)
Abbreviation Response := (gmap string string).

(** Exceptions raised inside [graphiti_core] and by its collaborators. *)
Inductive Exn :=
| IndexError
| KeyError (key : string)
| EdgeNotFoundError (message : string)
| NodeNotFoundError (message : string)
| ServiceError (detail : string).

(** What a collaborator answers to one call. *)
Inductive reply (A : Type) :=
| Returns (a : A)
| Raises (e : Exn).
Arguments Returns {A} a.
Arguments Raises {A} e.

(** The outcome of a computation raising exceptions of type [E].  [Diverge]
    is the result of a loop whose iteration budget ran out; no Python
    exception corresponds to it. *)
Inductive outcome (E A : Type) :=
| Ok (a : A)
| Raise (e : E)
| Diverge.
Arguments Ok {E A} a.
Arguments Raise {E A} e.
Arguments Diverge {E A}.

(** ** The monad of awaited computations *)

Section Computation.
Context {Ev E : Type}.

Definition comp (A : Type) : Type := list Ev -> outcome E A * list Ev.

Definition ret {A} (a : A) : comp A := fun _ => (Ok a, []).

Definition raise {A} (e : E) : comp A := fun _ => (Raise e, []).

Definition diverge {A} : comp A := fun _ => (Diverge, []).

Definition bind {A B} (m : comp A) (k : A -> comp B) : comp B := fun h =>
  match m h with
  | (Ok a, ev) => let '(r, ev') := k a (h ++ ev) in (r, ev ++ ev')
  | (Raise e, ev) => (Raise e, ev)
  | (Diverge, ev) => (Diverge, ev)
  end.

Definition cons_outcome {A} (r : outcome E A) (rs : outcome E (list A))
  : outcome E (list A) :=
  match r with
  | Ok a => match rs with Ok l => Ok (a :: l) | Raise e => Raise e | Diverge => Diverge end
  | Raise e => Raise e
  | Diverge => Diverge
  end.

(** [asyncio.gather]: every task is started and runs to its end, also after
    another one failed; the results come in task order and the first failure
    in that order is raised to the awaiter.  The tasks are scheduled here in
    task order, one after the other.  For tasks of a single call (the pair
    merges of a round, the member lookups) this is the order in which the
    event loop starts them.  For tasks of several calls (one
    [build_community] per cluster) the event loop may interleave the calls
    of different tasks and raises the failure that comes first in time; the
    schedule taken here is the one in which each task ends before the next
    starts, so the order of calls across such tasks, and which of several
    failures is raised, is that of this schedule only. *)
Fixpoint gather {A} (tasks : list (comp A)) : comp (list A) := fun h =>
  match tasks with
  | [] => (Ok [], [])
  | task :: rest =>
      let '(r, ev) := task h in
      let '(rs, ev') := gather rest (h ++ ev) in
      (cons_outcome r rs, ev ++ ev')
  end.

(** A [for] loop threading its local state. *)
Fixpoint for_each {A S} (body : S -> A -> comp S) (s : S) (l : list A) : comp S :=
  match l with
  | [] => ret s
  | x :: l' => bind (body s x) (fun s' => for_each body s' l')
  end.

(** [l[0]] *)
Definition index0 {A} (l : list A) (e : E) : comp A :=
  match l with
  | x :: _ => ret x
  | [] => raise e
  end.

(** Every event issued by [m], from any history, satisfies [P]. *)
Definition emits {A} (P : Ev -> Prop) (m : comp A) : Prop :=
  forall h ev, ev ∈ snd (m h) -> P ev.

End Computation.

Notation "x <- m ;; k" := (bind m (fun x => k))
  (at level 20, m at level 99, k at level 200, format "'[v' x  <-  m  ;;  '/' k ']'").
Notation "' p <- m ;; k" := (bind m (fun x => match x with p => k end))
  (at level 20, p pattern, m at level 99, k at level 200).

(** One awaited call: the collaborator sees the history, the event is logged. *)
Definition call {Ev A} (ev : Ev) (answer : list Ev -> reply A) : comp (Ev:=Ev) (E:=Exn) A :=
  fun h => (match answer h with Returns a => Ok a | Raises e => Raise e end, [ev]).

(** ** Python containers *)

(** [list.pop()]: the list without its last element, and that element. *)
Fixpoint pop {A} (l : list A) : option (list A * A) :=
  match l with
  | [] => None
  | [x] => Some ([], x)
  | x :: l' => match pop l' with
               | Some (rest, y) => Some (x :: rest, y)
               | None => None
               end
  end.

(** A [defaultdict] as the list of its items in insertion order.
    [d[k] = f(d[k])]: an absent key is first inserted with the default, at the
    end; a present key keeps its place. *)
Fixpoint defaultdict_update {K V} `{EqDecision K}
    (default : V) (f : V -> V) (d : list (K * V)) (k : K) : list (K * V) :=
  match d with
  | [] => [(k, f default)]
  | (k', v) :: d' =>
      if decide (k' = k) then (k', f v) :: d'
      else (k', v) :: defaultdict_update default f d' k
  end.

(** [d.get(k)] on such a dictionary. *)
Fixpoint defaultdict_lookup {K V} `{EqDecision K} (d : list (K * V)) (k : K) : option V :=
  match d with
  | [] => None
  | (k', v) :: d' => if decide (k' = k) then Some v else defaultdict_lookup d' k
  end.

(** [d.get(key, default)] *)
Definition dict_get (d : Response) (key default : string) : string :=
  match d !! key with
  | Some v => v
  | None => default
  end.

(** ** Nodes and edges *)

Module EntityNode.
Record t := mk {
  uuid : string;
  name : string;
  group_id : string;
  summary : string
}.
End EntityNode.

Module CommunityNode.
(** [Vec] is the type of embedding vectors. *)
Record t (Vec : Type) := mk {
  uuid : string;
  name : string;
  group_id : string;
  labels : list string;
  created_at : Z;
  summary : string;
  name_embedding : option Vec
}.
Arguments mk {Vec}.
Arguments uuid {Vec}.
Arguments name {Vec}.
Arguments group_id {Vec}.
Arguments labels {Vec}.
Arguments created_at {Vec}.
Arguments summary {Vec}.
Arguments name_embedding {Vec}.

Definition set_summary {Vec} (c : t Vec) (s : string) : t Vec :=
  mk (uuid c) (name c) (group_id c) (labels c) (created_at c) s (name_embedding c).

Definition set_name {Vec} (c : t Vec) (n : string) : t Vec :=
  mk (uuid c) n (group_id c) (labels c) (created_at c) (summary c) (name_embedding c).

Definition set_name_embedding {Vec} (c : t Vec) (v : Vec) : t Vec :=
  mk (uuid c) (name c) (group_id c) (labels c) (created_at c) (summary c) (Some v).
End CommunityNode.

Module CommunityEdge.
Record t := mk {
  source_node_uuid : string;
  target_node_uuid : string;
  created_at : Z;
  group_id : string
}.
End CommunityEdge.

(** ** Calls to the collaborators *)

(** The Cypher queries of the module, with their parameters. *)
Inductive Query :=
| QProject
| QDropProjection (projection_name : Value)
| QLeidenStream
| QRemoveCommunities
| QEntityCommunity (entity_uuid : string)
| QNeighbourCommunities (entity_uuid : string).

(** The two prompts of [prompt_library.summarize_nodes], with their context. *)
Inductive Prompt :=
| summarize_pair_prompt (node_summaries : list string)
| summary_description_prompt (summary : string).

(** ** community_operations.py *)

Section Events.
Context {Vec : Type}.

Inductive Event :=
| EQuery (q : Query)
| EGetByUuids (uuids : list Value)
| ELLM (p : Prompt)
| EEmbed (text : string)
| ESaveEdge (e : CommunityEdge.t)
| ESaveNode (c : CommunityNode.t Vec)
| ENow
| EUuid.


(** The collaborators.  [get_community_node_from_record] is imported from
    [graphiti_core.nodes]; it builds a node from one result row. *)
Record Services := {
  execute_query : list Event -> Query -> reply (list Record);
  get_by_uuids : list Event -> list Value -> reply (list EntityNode.t);
  generate_response : list Event -> Prompt -> reply Response;
  embed : list Event -> string -> reply Vec;
  save_edge : list Event -> CommunityEdge.t -> reply unit;
  save_node : list Event -> CommunityNode.t Vec -> reply unit;
  datetime_now : list Event -> Z;
  uuid4 : list Event -> string;
  get_community_node_from_record : Record -> CommunityNode.t Vec
}.

End Events.

Abbreviation Trace := (list Event).

(** Computations of the core: events of the collaborators, exceptions of the
    core. *)
Abbreviation M := (comp (Ev:=Event) (E:=Exn)).

Section Core.
Context {Vec : Type}.
Variable svc : Services (Vec:=Vec).

Local Abbreviation M := (comp (Ev:=Event (Vec:=Vec)) (E:=Exn)).

(** [await driver.execute_query(...)] *)
Definition driver_execute_query (q : Query) : M (list Record) :=
  call (EQuery q) (fun h => execute_query svc h q).

(** [await llm_client.generate_response(prompt)] *)
Definition llm_generate_response (p : Prompt) : M Response :=
  call (ELLM p) (fun h => generate_response svc h p).

(** [datetime.now()] *)
Definition now : M Z :=
  call ENow (fun h => Returns (datetime_now svc h)).

(** [record[key]] *)
Definition getitem (record : Record) (key : string) : M Value :=
  match record !! key with
  | Some v => ret v
  | None => raise (KeyError key)
  end.

Definition build_community_projection : M Value :=
  records <- driver_execute_query QProject ;;
  first <- index0 records IndexError ;;
  getitem first "graph".

Definition destroy_projection (projection_name : Value) : M unit :=
  _ <- driver_execute_query (QDropProjection projection_name) ;;
  ret tt.

Definition get_community_clusters (projection_name : Value) : M (list (list EntityNode.t)) :=
  records <- driver_execute_query QLeidenStream ;;
  community_map <- for_each (fun community_map record =>
      communityId <- getitem record "communityId" ;;
      entity_uuid <- getitem record "entity_uuid" ;;
      ret (defaultdict_update [] (fun l => l ++ [entity_uuid]) community_map communityId))
    [] records ;;
  gather (map (fun cluster => call (EGetByUuids cluster) (fun h => get_by_uuids svc h cluster))
              (map snd community_map)).

Definition summarize_pair (summary_pair : string * string) : M string :=
  llm_response <- llm_generate_response
      (summarize_pair_prompt [fst summary_pair; snd summary_pair]) ;;
  ret (dict_get llm_response "summary" "").

Definition generate_summary_description (summary : string) : M string :=
  llm_response <- llm_generate_response (summary_description_prompt summary) ;;
  ret (dict_get llm_response "description" "").

(** Modelled from the spec: [build_community_edges] of
    [graphiti_core.utils.maintenance.edge_operations] is not part of the
    sources.  One has-member edge per entity, from the community to the
    entity, all with the given [created_at] and the community's [group_id]. *)
Definition build_community_edges (entities : list EntityNode.t)
    (community_node : CommunityNode.t Vec) (created_at : Z) : list CommunityEdge.t :=
  map (fun entity =>
         CommunityEdge.mk (CommunityNode.uuid community_node) (EntityNode.uuid entity)
                          created_at (CommunityNode.group_id community_node))
      entities.

(** The body of the [while] loop of [build_community]: one reduction round.
    [int(length / 2)] is [length / 2] on naturals (the float quotient is exact
    for any length a list can have), and [str(...)] is the identity on the
    summaries, which are strings. *)
Definition reduction_round (summaries : list string) : M (list string) :=
  let length := length summaries in
  '(summaries, length, odd_one_out) <-
      (if length mod 2 =? 1 then
         match pop summaries with
         | Some (rest, last) => ret (rest, length - 1, Some last)
         | None => raise IndexError
         end
       else ret (summaries, length, None)) ;;
  new_summaries <- gather (map summarize_pair
      (zip (take (length / 2) summaries) (drop (length / 2) summaries))) ;;
  ret (match odd_one_out with
       | Some last => new_summaries ++ [last]
       | None => new_summaries
       end).

(** [while length > 1: ...], with an iteration budget. *)
Fixpoint reduction_loop (fuel : nat) (summaries : list string) : M (list string) :=
  if 1 <? length summaries then
    match fuel with
    | 0 => diverge
    | S fuel' =>
        new_summaries <- reduction_round summaries ;;
        reduction_loop fuel' new_summaries
    end
  else ret summaries.

(** The constructor of [CommunityNode] draws the node's [uuid]; no embedding
    is set. *)
Definition new_CommunityNode (name group_id : string) (labels : list string)
    (created_at : Z) (summary : string) : M (CommunityNode.t Vec) :=
  uuid <- call EUuid (fun h => Returns (uuid4 svc h)) ;;
  ret (CommunityNode.mk uuid name group_id labels created_at summary None).

Definition build_community (community_cluster : list EntityNode.t)
  : M (CommunityNode.t Vec * list CommunityEdge.t) :=
  let summaries := map EntityNode.summary community_cluster in
  summaries <- reduction_loop (length summaries) summaries ;;
  summary <- index0 summaries IndexError ;;
  name <- generate_summary_description summary ;;
  now <- now ;;
  first <- index0 community_cluster IndexError ;;
  community_node <- new_CommunityNode name (EntityNode.group_id first) ["Community"] now summary ;;
  let community_edges := build_community_edges community_cluster community_node now in
  ret (community_node, community_edges).

Definition build_communities : M (list (CommunityNode.t Vec) * list CommunityEdge.t) :=
  projection <- build_community_projection ;;
  community_clusters <- get_community_clusters projection ;;
  communities <- gather (map build_community community_clusters) ;;
  let community_nodes := map fst communities in
  let community_edges := concat (map snd communities) in
  _ <- destroy_projection projection ;;
  ret (community_nodes, community_edges).

Definition remove_communities : M unit :=
  _ <- driver_execute_query QRemoveCommunities ;;
  ret tt.

(** The tally [community_map[community.uuid] += 1] over the communities. *)
Definition tally (communities : list (CommunityNode.t Vec)) : list (string * nat) :=
  foldl (fun community_map community =>
           defaultdict_update 0 S community_map (CommunityNode.uuid community))
        [] communities.

(** The scan for the mode: [(community_uuid, max_count)] after the loop over
    [community_map.items()]. *)
Definition mode (community_map : list (string * nat)) : option string * nat :=
  foldl (fun '(community_uuid, max_count) '(uuid, count) =>
           if max_count <? count then (Some uuid, count)
           else (community_uuid, max_count))
        (None, 0) community_map.

Definition determine_entity_community (entity : EntityNode.t)
  : M (option (CommunityNode.t Vec) * bool) :=
  records <- driver_execute_query (QEntityCommunity (EntityNode.uuid entity)) ;;
  match records with
  | record :: _ => ret (Some (get_community_node_from_record svc record), false)
  | [] =>
      records <- driver_execute_query (QNeighbourCommunities (EntityNode.uuid entity)) ;;
      let communities := map (get_community_node_from_record svc) records in
      let '(community_uuid, max_count) := mode (tally communities) in
      if max_count =? 0 then ret (None, false)
      else
        match find (fun community =>
                      bool_decide (Some (CommunityNode.uuid community) = community_uuid))
                   communities with
        | Some community => ret (Some community, true)
        | None => ret (None, false)
        end
  end.

(** Modelled from the spec: [CommunityNode.generate_name_embedding] is not
    part of the sources.  It asks the embedder for the vector of the node's
    name and stores it in the node. *)
Definition generate_name_embedding (community : CommunityNode.t Vec) : M (CommunityNode.t Vec) :=
  v <- call (EEmbed (CommunityNode.name community))
            (fun h => embed svc h (CommunityNode.name community)) ;;
  ret (CommunityNode.set_name_embedding community v).

Definition update_community (entity : EntityNode.t) : M unit :=
  '(community, is_new) <- determine_entity_community entity ;;
  match community with
  | None => ret tt
  | Some community =>
      new_summary <- summarize_pair (EntityNode.summary entity, CommunityNode.summary community) ;;
      new_name <- generate_summary_description new_summary ;;
      let community := CommunityNode.set_summary community new_summary in
      let community := CommunityNode.set_name community new_name in
      _ <- (if is_new then
              created_at <- now ;;
              community_edge <- index0 (build_community_edges [entity] community created_at)
                                       IndexError ;;
              call (ESaveEdge community_edge) (fun h => save_edge svc h community_edge)
            else ret tt) ;;
      community <- generate_name_embedding community ;;
      call (ESaveNode community) (fun h => save_node svc h community)
  end.

End Core.

(** ** zep_graphiti.py *)

(** Exceptions leaving the API layer: fastapi's [HTTPException], raised by the
    wrappers themselves, or an exception of the core passing through
    unchanged. *)
Inductive ApiExn :=
| HTTPException (status_code : Z) (detail : string)
| Propagated (e : Exn).

Section Server.
Context {EntityEdge EpisodicNode : Type}.

Inductive ApiEvent :=
| EEntityEdge_get_by_uuid (uuid : string)
| EEntityEdge_delete (edge : EntityEdge)
| EEpisodicNode_get_by_uuid (uuid : string)
| EEpisodicNode_delete (episode : EpisodicNode).

(** The answer of [edge.delete] and [episode.delete].  They run one delete
    query for an object that the lookup has already fetched: the query goes
    through, or the driver fails.  The not-found errors are raised by the
    lookups only. *)
Inductive delete_reply :=
| Deleted
| DeleteFails (detail : string).

Definition reply_of_delete (r : delete_reply) : reply unit :=
  match r with
  | Deleted => Returns tt
  | DeleteFails detail => Raises (ServiceError detail)
  end.

(** [EntityEdge.get_by_uuid], [edge.delete], [EpisodicNode.get_by_uuid] and
    [episode.delete] of [graphiti_core]. *)
Record Graph := {
  EntityEdge_get_by_uuid : list ApiEvent -> string -> reply EntityEdge;
  EntityEdge_delete : list ApiEvent -> EntityEdge -> delete_reply;
  EpisodicNode_get_by_uuid : list ApiEvent -> string -> reply EpisodicNode;
  EpisodicNode_delete : list ApiEvent -> EpisodicNode -> delete_reply
}.

Variable graph : Graph.

(** [try: body except EdgeNotFoundError as e: handler(e.message)] *)
Definition try_except_EdgeNotFoundError {A}
    (body : comp (Ev:=ApiEvent) (E:=Exn) A)
    (handler : string -> comp (Ev:=ApiEvent) (E:=ApiExn) A)
  : comp (Ev:=ApiEvent) (E:=ApiExn) A := fun h =>
  match body h with
  | (Ok a, ev) => (Ok a, ev)
  | (Raise (EdgeNotFoundError message), ev) =>
      let '(r, ev') := handler message (h ++ ev) in (r, ev ++ ev')
  | (Raise e, ev) => (Raise (Propagated e), ev)
  | (Diverge, ev) => (Diverge, ev)
  end.

(** [try: body except NodeNotFoundError as e: handler(e.message)] *)
Definition try_except_NodeNotFoundError {A}
    (body : comp (Ev:=ApiEvent) (E:=Exn) A)
    (handler : string -> comp (Ev:=ApiEvent) (E:=ApiExn) A)
  : comp (Ev:=ApiEvent) (E:=ApiExn) A := fun h =>
  match body h with
  | (Ok a, ev) => (Ok a, ev)
  | (Raise (NodeNotFoundError message), ev) =>
      let '(r, ev') := handler message (h ++ ev) in (r, ev ++ ev')
  | (Raise e, ev) => (Raise (Propagated e), ev)
  | (Diverge, ev) => (Diverge, ev)
  end.

Definition get_entity_edge (uuid : string) : comp (Ev:=ApiEvent) (E:=ApiExn) EntityEdge :=
  try_except_EdgeNotFoundError
    (edge <- call (EEntityEdge_get_by_uuid uuid)
                  (fun h => EntityEdge_get_by_uuid graph h uuid) ;;
     ret edge)
    (fun message => raise (HTTPException 404 message)).

Definition delete_entity_edge (uuid : string) : comp (Ev:=ApiEvent) (E:=ApiExn) unit :=
  try_except_EdgeNotFoundError
    (edge <- call (EEntityEdge_get_by_uuid uuid)
                  (fun h => EntityEdge_get_by_uuid graph h uuid) ;;
     _ <- call (EEntityEdge_delete edge)
               (fun h => reply_of_delete (EntityEdge_delete graph h edge)) ;;
     ret tt)
    (fun message => raise (HTTPException 404 message)).

Definition delete_episodic_node (uuid : string) : comp (Ev:=ApiEvent) (E:=ApiExn) unit :=
  try_except_NodeNotFoundError
    (episode <- call (EEpisodicNode_get_by_uuid uuid)
                     (fun h => EpisodicNode_get_by_uuid graph h uuid) ;;
     _ <- call (EEpisodicNode_delete episode)
               (fun h => reply_of_delete (EpisodicNode_delete graph h episode)) ;;
     ret tt)
    (fun message => raise (HTTPException 404 message)).

(** The delete calls among the events. *)
Definition is_delete (ev : ApiEvent) : bool :=
  match ev with
  | EEntityEdge_delete _ | EEpisodicNode_delete _ => true
  | _ => false
  end.

End Server.

(** ** Observations on traces *)

Section Observations.
Context {Vec : Type}.

(** How many events of a trace satisfy [p]. *)
Definition calls {Ev} (p : Ev -> bool) (t : list Ev) : nat :=
  length (List.filter p t).

Definition is_summarize_pair (ev : Event (Vec:=Vec)) : bool :=
  match ev with
  | ELLM (summarize_pair_prompt _) => true
  | _ => false
  end.

Definition is_destroy_projection (ev : Event (Vec:=Vec)) : bool :=
  match ev with
  | EQuery (QDropProjection _) => true
  | _ => false
  end.

(** Events that leave the projection in place. *)
Definition keeps_projection (ev : Event (Vec:=Vec)) : Prop :=
  is_destroy_projection ev = false.

Definition is_save_edge (ev : Event (Vec:=Vec)) : bool :=
  match ev with ESaveEdge _ => true | _ => false end.

Definition is_save_node (ev : Event (Vec:=Vec)) : bool :=
  match ev with ESaveNode _ => true | _ => false end.

Definition is_embed (ev : Event (Vec:=Vec)) : bool :=
  match ev with EEmbed _ => true | _ => false end.

(** The two [MATCH ... RETURN] lookups of [determine_entity_community]. *)
Definition is_membership_lookup (ev : Event (Vec:=Vec)) : bool :=
  match ev with
  | EQuery (QEntityCommunity _) | EQuery (QNeighbourCommunities _) => true
  | _ => false
  end.

(** Calls that write to the store or to its projections, or reach the
    language model or the embedder. *)
Definition is_effectful (ev : Event (Vec:=Vec)) : bool :=
  negb (is_membership_lookup ev).

(** The event of one pair merge. *)
Definition merge_event (pair : string * string) : Event (Vec:=Vec) :=
  ELLM (summarize_pair_prompt [fst pair; snd pair]).

(** The votes of a community uuid among the neighbours' communities. *)
Definition votes (communities : list (CommunityNode.t Vec)) (uuid : string) : nat :=
  length (List.filter (fun c => bool_decide (CommunityNode.uuid c = uuid)) communities).

(** The carried-forward element of a round, as a list. *)
Definition carried_list (carried : option string) : list string :=
  match carried with
  | Some last => [last]
  | None => []
  end.

(** Clustering and the fan-out of [build_community], the part of
    [build_communities] between the creation of the projection and its
    teardown. *)
Definition cluster_and_build (svc : Services (Vec:=Vec)) (projection : Value)
  : M (list (CommunityNode.t Vec * list CommunityEdge.t)) :=
  community_clusters <- get_community_clusters svc projection ;;
  gather (map (build_community svc) community_clusters).

End Observations.

(** ** Stub collaborators for the examples *)

(** A language model that answers a pair with ["(l+r)"] and a summary with
    ["about s"], a store that knows the entity ["x"] has neighbours in the
    communities A, B, B, A, and a clustering in two clusters. *)
Definition sample_services : Services (Vec:=list Z) := {|
  execute_query := fun _ q =>
    match q with
    | QProject => Returns [ {[ "graph" := VStr "communities" ]} ]
    | QLeidenStream =>
        Returns [ {[ "entity_uuid" := VStr "e1"; "communityId" := VInt 1 ]};
                  {[ "entity_uuid" := VStr "e2"; "communityId" := VInt 2 ]};
                  {[ "entity_uuid" := VStr "e3"; "communityId" := VInt 1 ]} ]
    | QNeighbourCommunities "x" =>
        Returns [ {[ "uuid" := VStr "A" ]}; {[ "uuid" := VStr "B" ]};
                  {[ "uuid" := VStr "B" ]}; {[ "uuid" := VStr "A" ]} ]
    | _ => Returns []
    end;
  get_by_uuids := fun _ uuids =>
    Returns (map (fun u => match u with
                           | VStr s => EntityNode.mk s s "g" s
                           | _ => EntityNode.mk "" "" "g" ""
                           end) uuids);
  generate_response := fun _ p =>
    match p with
    | summarize_pair_prompt [l; r] =>
        Returns {[ "summary" := "(" +:+ l +:+ "+" +:+ r +:+ ")" ]}
    | summarize_pair_prompt _ => Returns ∅
    | summary_description_prompt s => Returns {[ "description" := "about " +:+ s ]}
    end;
  embed := fun _ _ => Returns [0%Z];
  save_edge := fun _ _ => Returns tt;
  save_node := fun _ _ => Returns tt;
  datetime_now := fun h => Z.of_nat (length h);
  uuid4 := fun h => "c" +:+ pretty (length h);
  get_community_node_from_record := fun record =>
    CommunityNode.mk (match record !! "uuid" with Some (VStr s) => s | _ => "" end)
                     "n" "g" ["Community"] 0 "s" None
|}.

(** The same collaborators, with a clustering call that fails. *)
Definition failing_clustering_services : Services (Vec:=list Z) := {|
  execute_query := fun h q =>
    match q with
    | QLeidenStream => Raises (ServiceError "leiden")
    | _ => execute_query sample_services h q
    end;
  get_by_uuids := get_by_uuids sample_services;
  generate_response := generate_response sample_services;
  embed := embed sample_services;
  save_edge := save_edge sample_services;
  save_node := save_node sample_services;
  datetime_now := datetime_now sample_services;
  uuid4 := uuid4 sample_services;
  get_community_node_from_record := get_community_node_from_record sample_services
|}.

Definition entity (s : string) : EntityNode.t := EntityNode.mk s s "g" s.

(** A graph that holds nothing. *)
Definition empty_graph : Graph (EntityEdge:=string) (EpisodicNode:=string) := {|
  EntityEdge_get_by_uuid := fun _ uuid => Raises (EdgeNotFoundError uuid);
  EntityEdge_delete := fun _ _ => Deleted;
  EpisodicNode_get_by_uuid := fun _ uuid => Raises (NodeNotFoundError uuid);
  EpisodicNode_delete := fun _ _ => Deleted
|}.

(** A graph that holds the edge ["e1"] and the episode ["n1"]. *)
Definition small_graph : Graph (EntityEdge:=string) (EpisodicNode:=string) := {|
  EntityEdge_get_by_uuid := fun _ uuid =>
    if decide (uuid = "e1") then Returns uuid else Raises (EdgeNotFoundError uuid);
  EntityEdge_delete := fun _ _ => Deleted;
  EpisodicNode_get_by_uuid := fun _ uuid =>
    if decide (uuid = "n1") then Returns uuid else Raises (NodeNotFoundError uuid);
  EpisodicNode_delete := fun _ _ => Deleted
|}.

(** ** The request-scoped client of zep_graphiti.py *)

(** [try: body finally: final].  The final block runs after the body whether
    the body returned or raised; an exception of the final block replaces the
    outcome of the body. *)
Definition try_finally {Ev E A} (body : comp (Ev:=Ev) (E:=E) A)
    (final : comp (Ev:=Ev) (E:=E) unit) : comp (Ev:=Ev) (E:=E) A := fun h =>
  let '(r, ev) := body h in
  match r with
  | Diverge => (Diverge, ev)
  | _ =>
      let '(f, ev') := final (h ++ ev) in
      (match f with
       | Ok _ => r
       | Raise e => Raise e
       | Diverge => Diverge
       end, ev ++ ev')
  end.

Module Settings.
Record t := mk {
  neo4j_uri : string;
  neo4j_user : string;
  neo4j_password : string;
  openai_base_url : option string;
  openai_api_key : option string;
  model_name : option string
}.
End Settings.

Module LLMConfig.
Record t := mk {
  base_url : option string;
  api_key : option string
}.
End LLMConfig.

Module LLMClientState.
Record t := mk {
  config : LLMConfig.t;
  model : option string
}.
End LLMClientState.

Module ZepClient.
(** [Driver] is the type of the graph driver held by the client. *)
Record t (Driver : Type) := mk {
  driver : Driver;
  llm_client : LLMClientState.t
}.
Arguments mk {Driver}.
Arguments driver {Driver}.
Arguments llm_client {Driver}.

(** [client.llm_client.config.base_url = v] *)
Definition set_base_url {Driver} (client : t Driver) (v : string) : t Driver :=
  mk (driver client)
     (LLMClientState.mk
        (LLMConfig.mk (Some v)
                      (LLMConfig.api_key (LLMClientState.config (llm_client client))))
        (LLMClientState.model (llm_client client))).

(** [client.llm_client.config.api_key = v] *)
Definition set_api_key {Driver} (client : t Driver) (v : string) : t Driver :=
  mk (driver client)
     (LLMClientState.mk
        (LLMConfig.mk (LLMConfig.base_url (LLMClientState.config (llm_client client)))
                      (Some v))
        (LLMClientState.model (llm_client client))).

(** [client.llm_client.model = v] *)
Definition set_model {Driver} (client : t Driver) (v : string) : t Driver :=
  mk (driver client)
     (LLMClientState.mk (LLMClientState.config (llm_client client)) (Some v)).
End ZepClient.

Section Dependency.
Context {Driver EmbeddedNode X : Type}.

(** The calls of [get_graphiti] and [save_entity_node]; [ERequest] stands for
    the calls of the request served while [get_graphiti] is suspended at its
    [yield]. *)
Inductive ClientEvent :=
| EZepGraphiti (uri user password : string)
| EClose (client : ZepClient.t Driver)
| ERequest (x : X)
| EGenerateNameEmbedding (node : EntityNode.t)
| ESaveEntityNode (node : EmbeddedNode).

(** The constructor of [ZepGraphiti] (that of [Graphiti]), [client.close()],
    and, for [save_entity_node], [new_node.generate_name_embedding], which
    answers with the node holding its embedding, and [new_node.save]. *)
Record ClientServices := {
  ZepGraphiti_init : list ClientEvent -> string -> string -> string
                     -> reply (ZepClient.t Driver);
  ZepGraphiti_close : list ClientEvent -> ZepClient.t Driver -> reply unit;
  EntityNode_generate_name_embedding : list ClientEvent -> EntityNode.t
                                       -> reply EmbeddedNode;
  EntityNode_save : list ClientEvent -> EmbeddedNode -> reply unit
}.

Variable client_svc : ClientServices.

(** The three overrides of [get_graphiti], each applied when its setting is
    not [None]. *)
Definition configure (settings : Settings.t) (client : ZepClient.t Driver)
  : ZepClient.t Driver :=
  let client := match Settings.openai_base_url settings with
                | Some v => ZepClient.set_base_url client v
                | None => client
                end in
  let client := match Settings.openai_api_key settings with
                | Some v => ZepClient.set_api_key client v
                | None => client
                end in
  match Settings.model_name settings with
  | Some v => ZepClient.set_model client v
  | None => client
  end.

(** [get_graphiti]; [request] is the code that runs with the yielded client
    while the generator is suspended at [yield client]. *)
Definition get_graphiti {A} (settings : Settings.t)
    (request : ZepClient.t Driver -> comp (Ev:=ClientEvent) (E:=Exn) A)
  : comp (Ev:=ClientEvent) (E:=Exn) A :=
  client <- call (EZepGraphiti (Settings.neo4j_uri settings) (Settings.neo4j_user settings)
                               (Settings.neo4j_password settings))
                 (fun h => ZepGraphiti_init client_svc h (Settings.neo4j_uri settings)
                             (Settings.neo4j_user settings)
                             (Settings.neo4j_password settings)) ;;
  let client := configure settings client in
  try_finally (request client)
              (call (EClose client) (fun h => ZepGraphiti_close client_svc h client)).

(** [ZepGraphiti.save_entity_node]; [summary] defaults to the empty string
    at the call sites that omit it. *)
Definition save_entity_node (name uuid group_id summary : string)
  : comp (Ev:=ClientEvent) (E:=Exn) EmbeddedNode :=
  let new_node := EntityNode.mk uuid name group_id summary in
  new_node' <- call (EGenerateNameEmbedding new_node)
                    (fun h => EntityNode_generate_name_embedding client_svc h new_node) ;;
  _ <- call (ESaveEntityNode new_node')
            (fun h => EntityNode_save client_svc h new_node') ;;
  ret new_node'.

Definition is_close (ev : ClientEvent) : bool :=
  match ev with EClose _ => true | _ => false end.

Definition is_save_entity_node (ev : ClientEvent) : bool :=
  match ev with ESaveEntityNode _ => true | _ => false end.

End Dependency.

(** ** Further observations *)

(** The entity uuids streamed with cluster id [communityId], in stream
    order. *)
Definition members (records : list Record) (communityId : Value) : list Value :=
  omap (fun record : Record =>
          if decide (record !! "communityId" = Some communityId)
          then record !! "entity_uuid" else None)
       records.

(** One iteration of the grouping loop of [get_community_clusters] on a
    record that has both fields (a record lacking one raises [KeyError]). *)
Definition group_step (community_map : list (Value * list Value)) (record : Record)
  : list (Value * list Value) :=
  match record !! "communityId", record !! "entity_uuid" with
  | Some communityId, Some entity_uuid =>
      defaultdict_update [] (fun l => l ++ [entity_uuid]) community_map communityId
  | _, _ => community_map
  end.

Section FurtherObservations.
Context {Vec : Type}.

(** The calls a full rebuild may issue: the three projection queries, the
    entity lookups, the language model, the clock and the uuid source. *)
Definition is_rebuild_call (ev : Event (Vec:=Vec)) : bool :=
  match ev with
  | EQuery QProject | EQuery (QDropProjection _) | EQuery QLeidenStream => true
  | EGetByUuids _ | ELLM _ | ENow | EUuid => true
  | _ => false
  end.

(** The calls [build_community] may issue. *)
Definition is_summarizer_call (ev : Event (Vec:=Vec)) : bool :=
  match ev with
  | ELLM _ | ENow | EUuid => true
  | _ => false
  end.

(** What a node save or an edge save of [update_community] must carry. *)
Definition keeps_identity (entity : EntityNode.t) (community : CommunityNode.t Vec)
    (ev : Event (Vec:=Vec)) : Prop :=
  match ev with
  | ESaveNode c =>
      CommunityNode.uuid c = CommunityNode.uuid community /\
      CommunityNode.group_id c = CommunityNode.group_id community /\
      CommunityNode.created_at c = CommunityNode.created_at community /\
      CommunityNode.labels c = CommunityNode.labels community
  | ESaveEdge e =>
      CommunityEdge.source_node_uuid e = CommunityNode.uuid community /\
      CommunityEdge.target_node_uuid e = EntityNode.uuid entity /\
      CommunityEdge.group_id e = CommunityNode.group_id community
  | _ => True
  end.

End FurtherObservations.

(** ** Further stub collaborators *)

(** The stub collaborators over a store that answers the membership lookup
    with [direct] and the neighbour lookup with [neighbours]. *)
Definition store_with (direct neighbours : list Record) : Services (Vec:=list Z) := {|
  execute_query := fun h q =>
    match q with
    | QEntityCommunity _ => Returns direct
    | QNeighbourCommunities _ => Returns neighbours
    | _ => execute_query sample_services h q
    end;
  get_by_uuids := get_by_uuids sample_services;
  generate_response := generate_response sample_services;
  embed := embed sample_services;
  save_edge := save_edge sample_services;
  save_node := save_node sample_services;
  datetime_now := datetime_now sample_services;
  uuid4 := uuid4 sample_services;
  get_community_node_from_record := get_community_node_from_record sample_services
|}.

(** The same store with a language model that is down, or that answers with
    an empty dictionary. *)
Definition with_llm (answer : reply Response) (svc : Services (Vec:=list Z))
  : Services (Vec:=list Z) := {|
  execute_query := execute_query svc;
  get_by_uuids := get_by_uuids svc;
  generate_response := fun _ _ => answer;
  embed := embed svc;
  save_edge := save_edge svc;
  save_node := save_node svc;
  datetime_now := datetime_now svc;
  uuid4 := uuid4 svc;
  get_community_node_from_record := get_community_node_from_record svc
|}.

(** A store whose projection query and cluster stream answer with the given
    rows. *)
Definition streaming (projections stream : list Record) : Services (Vec:=list Z) := {|
  execute_query := fun h q =>
    match q with
    | QProject => Returns projections
    | QLeidenStream => Returns stream
    | _ => execute_query sample_services h q
    end;
  get_by_uuids := get_by_uuids sample_services;
  generate_response := generate_response sample_services;
  embed := embed sample_services;
  save_edge := save_edge sample_services;
  save_node := save_node sample_services;
  datetime_now := datetime_now sample_services;
  uuid4 := uuid4 sample_services;
  get_community_node_from_record := get_community_node_from_record sample_services
|}.

(** A client factory with an unconfigured language-model client; embedding
    fails for the empty name. *)
Definition sample_client_services
  : ClientServices (Driver:=string) (EmbeddedNode:=EntityNode.t * list Z) (X:=string) := {|
  ZepGraphiti_init := fun _ uri _ _ =>
    Returns (ZepClient.mk uri (LLMClientState.mk (LLMConfig.mk None None) None));
  ZepGraphiti_close := fun _ _ => Returns tt;
  EntityNode_generate_name_embedding := fun _ node =>
    if decide (EntityNode.name node = "") then Raises (ServiceError "empty input")
    else Returns (node, [0%Z]);
  EntityNode_save := fun _ _ => Returns tt
|}.

(** A request that issues one call and fails. *)
Definition failing_request (client : ZepClient.t string)
  : comp (Ev:=ClientEvent (Driver:=string) (EmbeddedNode:=EntityNode.t * list Z) (X:=string))
         (E:=Exn) unit :=
  call (ERequest "search") (fun _ => Raises (ServiceError "timeout")).

(** * Properties *)

(** ** The monad *)

Section ComputationFacts.
Context {Ev E : Type}.
Implicit Types h : list Ev.

Lemma bind_ok {A B} (m : comp (Ev:=Ev) (E:=E) A) (k : A -> comp B) h a ev :
  m h = (Ok a, ev) ->
  bind m k h = (fst (k a (h ++ ev)), ev ++ snd (k a (h ++ ev))).
Proof. unfold bind. intros ->. by destruct (k a (h ++ ev)). Qed.

Lemma bind_raise {A B} (m : comp (Ev:=Ev) (E:=E) A) (k : A -> comp B) h e ev :
  m h = (Raise e, ev) -> bind m k h = (Raise e, ev).
Proof. unfold bind. by intros ->. Qed.

Lemma bind_diverge {A B} (m : comp (Ev:=Ev) (E:=E) A) (k : A -> comp B) h ev :
  m h = (Diverge, ev) -> bind m k h = (Diverge, ev).
Proof. unfold bind. by intros ->. Qed.

(** The events of [m] come first among the events of [bind m k]. *)
Lemma bind_events_prefix {A B} (m : comp (Ev:=Ev) (E:=E) A) (k : A -> comp B) h :
  exists rest, snd (bind m k h) = snd (m h) ++ rest.
Proof.
  unfold bind. destruct (m h) as [[a|e|] ev]; simpl.
  - destruct (k a (h ++ ev)) as [r ev']. by exists ev'.
  - exists []. by rewrite app_nil_r.
  - exists []. by rewrite app_nil_r.
Qed.

Lemma calls_app (p : Ev -> bool) (t1 t2 : list Ev) :
  calls p (t1 ++ t2) = calls p t1 + calls p t2.
Proof. unfold calls. by rewrite List.filter_app, length_app. Qed.

End ComputationFacts.

(** ** The hierarchical summarizer *)

Section SummarizerFacts.
Context {Vec : Type}.
Variable svc : Services (Vec:=Vec).
Implicit Types h : list (Event (Vec:=Vec)).
Implicit Types summaries work : list string.

Lemma summarize_pair_run pair h :
  summarize_pair svc pair h =
  (match generate_response svc h (summarize_pair_prompt [fst pair; snd pair]) with
   | Returns resp => Ok (dict_get resp "summary" "")
   | Raises e => Raise e
   end, [merge_event pair]).
Proof.
  unfold summarize_pair, llm_generate_response, bind, call, ret, merge_event.
  by destruct (generate_response svc h _).
Qed.

Lemma generate_summary_description_run summary h :
  generate_summary_description svc summary h =
  (match generate_response svc h (summary_description_prompt summary) with
   | Returns resp => Ok (dict_get resp "description" "")
   | Raises e => Raise e
   end, [ELLM (summary_description_prompt summary)]).
Proof.
  unfold generate_summary_description, llm_generate_response, bind, call, ret.
  by destruct (generate_response svc h _).
Qed.

Lemma gather_cons {A} (task : comp (Ev:=Event (Vec:=Vec)) (E:=Exn) A) rest h :
  gather (task :: rest) h =
  (cons_outcome (fst (task h)) (fst (gather rest (h ++ snd (task h)))),
   snd (task h) ++ snd (gather rest (h ++ snd (task h)))).
Proof.
  simpl. destruct (task h) as [r ev]. simpl.
  by destruct (gather rest (h ++ ev)).
Qed.

(** A wave of pair merges issues one call per pair, in pair order. *)
Lemma gather_merges_events pairs h :
  snd (gather (map (summarize_pair svc) pairs) h) = map merge_event pairs.
Proof.
  revert h. induction pairs as [|pair pairs IH]; intros h; [done|].
  rewrite map_cons, gather_cons. simpl.
  rewrite summarize_pair_run. simpl. by rewrite IH.
Qed.

Lemma gather_merges_not_diverge pairs h :
  fst (gather (map (summarize_pair svc) pairs) h) <> Diverge.
Proof.
  revert h. induction pairs as [|pair pairs IH]; intros h; [done|].
  rewrite map_cons, gather_cons. simpl.
  rewrite summarize_pair_run. simpl.
  specialize (IH (h ++ [merge_event pair])).
  destruct (generate_response svc h _); simpl; [|done].
  by destruct (fst (gather _ _)).
Qed.

(** The merged texts of a wave that succeeded: one per pair, each the
    ["summary"] field of the answer to that pair's call. *)
Lemma gather_merges_ok pairs h merged :
  fst (gather (map (summarize_pair svc) pairs) h) = Ok merged ->
  length merged = length pairs /\
  forall i pair, pairs !! i = Some pair ->
    exists resp,
      generate_response svc (h ++ take i (map merge_event pairs))
                        (summarize_pair_prompt [fst pair; snd pair]) = Returns resp /\
      merged !! i = Some (dict_get resp "summary" "").
Proof.
  revert h merged. induction pairs as [|p pairs IH]; intros h merged.
  - simpl. intros [= <-]. split; [done|]. intros i pair Hi. by destruct i.
  - rewrite map_cons, gather_cons. simpl.
    rewrite summarize_pair_run. simpl.
    destruct (generate_response svc h _) as [resp|e] eqn:Hresp; simpl; [|done].
    destruct (fst (gather _ _)) as [l| |] eqn:Hl; simpl; try done.
    intros [= <-]. apply IH in Hl as [Hlen Hl]. split; [simpl; by rewrite Hlen|].
    intros [|i] pair Hi; simpl in *.
    + injection Hi as <-. exists resp. by rewrite app_nil_r.
    + destruct (Hl i pair Hi) as (resp' & Hr & Hm).
      exists resp'. split; [|done]. by rewrite <- app_assoc in Hr.
Qed.

Lemma gather_merges_total pairs h :
  (forall h' p, exists resp, generate_response svc h' p = Returns resp) ->
  exists merged, fst (gather (map (summarize_pair svc) pairs) h) = Ok merged.
Proof.
  intros Hllm. revert h. induction pairs as [|p pairs IH]; intros h; [by eexists|].
  rewrite map_cons, gather_cons. simpl.
  rewrite summarize_pair_run. simpl.
  destruct (Hllm h (summarize_pair_prompt [fst p; snd p])) as [resp ->]. simpl.
  destruct (IH (h ++ [merge_event p])) as [merged ->]. by eexists.
Qed.

Lemma pop_snoc {A} (l : list A) (x : A) : pop (l ++ [x]) = Some (l, x).
Proof.
  induction l as [|y l IH]; [done|].
  change ((y :: l) ++ [x]) with (y :: (l ++ [x])).
  simpl. rewrite IH. by destruct (l ++ [x]) eqn:Heq; [destruct l|].
Qed.

(** A round over an even-length working sequence and the carried element. *)
Lemma reduction_round_run work carried h :
  Nat.even (length work) = true ->
  let half := length work / 2 in
  let wave := gather (map (summarize_pair svc) (zip (take half work) (drop half work))) h in
  reduction_round svc (work ++ carried_list carried) h =
  (match fst wave with
   | Ok merged => Ok (merged ++ carried_list carried)
   | Raise e => Raise e
   | Diverge => Diverge
   end, snd wave).
Proof.
  intros Heven half wave. unfold reduction_round.
  apply Nat.even_spec in Heven as [k Hk].
  assert (Hodd : (length work + 1) mod 2 = 1).
  { rewrite Hk. replace (2 * k + 1) with (1 + k * 2) by lia.
    by rewrite Nat.Div0.mod_add. }
  assert (Heven : length work mod 2 = 0).
  { rewrite Hk, Nat.mul_comm. apply Nat.Div0.mod_mul. }
  subst wave half.
  destruct carried as [last|]; unfold carried_list.
  - rewrite length_app. change (length [last]) with 1. rewrite Hodd.
    change (1 =? 1) with true. cbv iota. rewrite pop_snoc.
    replace (length work + 1 - 1) with (length work) by lia.
    unfold bind, ret. cbv beta iota zeta. rewrite app_nil_r.
    destruct (gather _ h) as [[merged|e|] ev]; cbn [fst snd app]; by rewrite ?app_nil_r.
  - rewrite app_nil_r, Heven.
    change (0 =? 1) with false. cbv iota.
    unfold bind, ret. cbv beta iota zeta. rewrite app_nil_r.
    destruct (gather _ h) as [[merged|e|] ev]; cbn [fst snd app]; by rewrite ?app_nil_r.
Qed.

(** The pairs of a round: position [i] of the first half with position [i]
    of the second half. *)
Lemma halves_lookup work i pair :
  Nat.even (length work) = true ->
  let half := length work / 2 in
  zip (take half work) (drop half work) !! i = Some pair <->
  i < half /\ work !! i = Some (fst pair) /\ work !! (half + i) = Some (snd pair).
Proof.
  intros Heven half. rewrite lookup_zip_with, lookup_drop.
  destruct pair as [left right]. simpl.
  destruct (decide (i < half)) as [Hlt|Hge].
  - rewrite lookup_take_lt by done.
    destruct (work !! i) as [x|]; simpl.
    + destruct (work !! (half + i)) as [y|]; simpl.
      * split; [by intros [= <- <-]|by intros (_ & [= <-] & [= <-])].
      * split; [done|by intros (_ & _ & ?)].
    + split; [done|by intros (_ & ? & _)].
  - rewrite lookup_take_ge by lia. simpl. split; [done|by intros (? & _)].
Qed.

Lemma halves_length work :
  Nat.even (length work) = true ->
  length (zip (take (length work / 2) work) (drop (length work / 2) work)) = length work / 2.
Proof.
  intros Heven. apply Nat.even_spec in Heven as [k Hk].
  rewrite length_zip_with, length_take, length_drop, Hk.
  replace (2 * k / 2) with k by (by rewrite Nat.mul_comm, Nat.div_mul).
  lia.
Qed.

Lemma reduction_loop_step fuel summaries :
  1 < length summaries ->
  reduction_loop svc (S fuel) summaries =
  (new_summaries <- reduction_round svc summaries ;;
   reduction_loop svc fuel new_summaries).
Proof.
  intros Hlen. simpl.
  by replace (1 <? length summaries) with true by (symmetry; by apply Nat.ltb_lt).
Qed.

Lemma reduction_loop_done fuel summaries :
  length summaries <= 1 -> reduction_loop svc fuel summaries = ret summaries.
Proof.
  intros Hlen.
  assert ((1 <? length summaries) = false) as Hlt by (by apply Nat.ltb_ge).
  destruct fuel; simpl; by rewrite Hlt.
Qed.

(** A wave whose calls are all answered returns. *)
Lemma gather_merges_answered pairs h :
  (forall i pair, pairs !! i = Some pair ->
     exists resp,
       generate_response svc (h ++ take i (map merge_event pairs))
                         (summarize_pair_prompt [fst pair; snd pair]) = Returns resp) ->
  exists merged, fst (gather (map (summarize_pair svc) pairs) h) = Ok merged.
Proof.
  revert h. induction pairs as [|p pairs IH]; intros h Hllm; [by eexists|].
  rewrite map_cons, gather_cons. simpl.
  rewrite summarize_pair_run. simpl.
  destruct (Hllm 0 p eq_refl) as [resp Hresp].
  simpl in Hresp. rewrite app_nil_r in Hresp. rewrite Hresp. simpl.
  destruct (IH (h ++ [merge_event p])) as [merged ->]; [|by eexists].
  intros i pair Hi. destruct (Hllm (S i) pair Hi) as [resp' Hresp'].
  exists resp'. simpl in Hresp'. by rewrite <- app_assoc.
Qed.

(** C4: in a reduction round over a working sequence of even length L
    (the odd element, if any, removed from the end), the round issues exactly
    L/2 pair merges, the i-th one for element i of the first half and
    element i of the second half (index L/2 + i), and the new sequence is
    the merged texts in that order followed by the carried element: a round
    that returns returns that sequence, and a round whose merge calls are
    all answered does return. *)
Theorem reduction_round_pairs_halves work carried h :
  Nat.even (length work) = true ->
  let half := length work / 2 in
  let run := reduction_round svc (work ++ carried_list carried) h in
  length (snd run) = half /\
  (forall i, i < half ->
     exists left right,
       work !! i = Some left /\ work !! (half + i) = Some right /\
       snd run !! i = Some (merge_event (left, right))) /\
  (forall new_summaries, fst run = Ok new_summaries ->
     exists merged,
       new_summaries = merged ++ carried_list carried /\
       length merged = half /\
       forall i left right,
         i < half -> work !! i = Some left -> work !! (half + i) = Some right ->
         exists resp,
           generate_response svc (h ++ take i (snd run))
                             (summarize_pair_prompt [left; right]) = Returns resp /\
           merged !! i = Some (dict_get resp "summary" "")) /\
  ((forall i left right,
      i < half -> work !! i = Some left -> work !! (half + i) = Some right ->
      exists resp,
        generate_response svc (h ++ take i (snd run))
                          (summarize_pair_prompt [left; right]) = Returns resp) ->
   exists merged,
     fst run = Ok (merged ++ carried_list carried) /\
     length merged = half /\
     forall i left right,
       i < half -> work !! i = Some left -> work !! (half + i) = Some right ->
       exists resp,
         generate_response svc (h ++ take i (snd run))
                           (summarize_pair_prompt [left; right]) = Returns resp /\
         merged !! i = Some (dict_get resp "summary" "")).
Proof.
  intros Heven half run. subst run.
  rewrite (reduction_round_run work carried h Heven). cbn [fst snd].
  fold half. rewrite gather_merges_events.
  assert (Hresult : forall merged,
    fst (gather (map (summarize_pair svc) (zip (take half work) (drop half work))) h)
    = Ok merged ->
    length merged = half /\
    forall i left right,
      i < half -> work !! i = Some left -> work !! (half + i) = Some right ->
      exists resp,
        generate_response svc
          (h ++ take i (map merge_event (zip (take half work) (drop half work))))
          (summarize_pair_prompt [left; right]) = Returns resp /\
        merged !! i = Some (dict_get resp "summary" "")).
  { intros merged Hwave.
    apply gather_merges_ok in Hwave as [Hlen Hmerged].
    split; [rewrite Hlen; by apply halves_length|].
    intros i left right Hi Hl Hr.
    apply (Hmerged i (left, right)). by apply halves_lookup. }
  split; [|split; [|split]].
  - rewrite length_map. by apply halves_length.
  - intros i Hi.
    assert (is_Some (work !! i)) as [left Hl].
    { apply lookup_lt_is_Some.
      pose proof (Nat.Div0.div_le_upper_bound (length work) 2 (length work)).
      pose proof (Nat.Div0.mul_div_le (length work) 2). unfold half in Hi. lia. }
    assert (is_Some (work !! (half + i))) as [right Hr].
    { apply lookup_lt_is_Some. apply Nat.even_spec in Heven as [k Hk].
      unfold half in *. rewrite Hk in *.
      replace (2 * k / 2) with k in * by (by rewrite Nat.mul_comm, Nat.div_mul). lia. }
    exists left, right. split; [done|]. split; [done|].
    rewrite list_lookup_fmap.
    assert (zip (take half work) (drop half work) !! i = Some (left, right)) as ->; [|done].
    by apply halves_lookup.
  - intros new_summaries Hnew.
    destruct (fst (gather _ h)) as [merged| |] eqn:Hwave; try done.
    injection Hnew as <-. exists merged. split; [done|]. by apply Hresult.
  - intros Hllm.
    destruct (gather_merges_answered (zip (take half work) (drop half work)) h)
      as [merged Hwave].
    { intros i [left right] Hi. apply halves_lookup in Hi as (Hi & Hl & Hr); [|done].
      by apply Hllm. }
    exists merged. rewrite Hwave. split; [done|]. by apply Hresult.
Qed.

(** C1 (as amended): for a cluster whose entities carry the summaries
    [a,b,c,d,e], the first reduction round of [build_community] sets [e]
    aside, issues exactly the two pair merges (a,c) and (b,d), in that order,
    and yields [m1, m2, e]; these two calls are the first calls of
    [build_community]. *)
Theorem first_round_of_five (ea eb ec ed ee : EntityNode.t) h :
  let a := EntityNode.summary ea in
  let b := EntityNode.summary eb in
  let c := EntityNode.summary ec in
  let d := EntityNode.summary ed in
  let e := EntityNode.summary ee in
  let call1 := merge_event (a, c) in
  let call2 := merge_event (b, d) in
  reduction_round svc [a; b; c; d; e] h =
    (match generate_response svc h (summarize_pair_prompt [a; c]),
           generate_response svc (h ++ [call1]) (summarize_pair_prompt [b; d]) with
     | Returns resp1, Returns resp2 =>
         Ok [dict_get resp1 "summary" ""; dict_get resp2 "summary" ""; e]
     | Returns _, Raises x => Raise x
     | Raises x, _ => Raise x
     end, [call1; call2]) /\
  exists rest, snd (build_community svc [ea; eb; ec; ed; ee] h) = call1 :: call2 :: rest.
Proof.
  intros a b c d e call1 call2.
  assert (Hround : reduction_round svc [a; b; c; d; e] h =
    (match generate_response svc h (summarize_pair_prompt [a; c]),
           generate_response svc (h ++ [call1]) (summarize_pair_prompt [b; d]) with
     | Returns resp1, Returns resp2 =>
         Ok [dict_get resp1 "summary" ""; dict_get resp2 "summary" ""; e]
     | Returns _, Raises x => Raise x
     | Raises x, _ => Raise x
     end, [call1; call2])).
  { change [a; b; c; d; e] with ([a; b; c; d] ++ carried_list (Some e)).
    rewrite (reduction_round_run [a; b; c; d] (Some e) h eq_refl).
    change (zip _ _) with [(a, c); (b, d)].
    rewrite !map_cons, !gather_cons, !summarize_pair_run. cbn [fst snd map gather app].
    fold call1.
    destruct (generate_response svc h _); [|done].
    by destruct (generate_response svc (h ++ [call1]) _). }
  split; [done|].
  unfold build_community.
  destruct (bind_events_prefix
    (reduction_loop svc (length (map EntityNode.summary [ea; eb; ec; ed; ee]))
                    (map EntityNode.summary [ea; eb; ec; ed; ee]))
    (fun summaries =>
       summary <- index0 summaries IndexError ;;
       name <- generate_summary_description svc summary ;;
       now <- now svc ;;
       first <- index0 [ea; eb; ec; ed; ee] IndexError ;;
       community_node <- new_CommunityNode svc name (EntityNode.group_id first)
                                           ["Community"] now summary ;;
       ret (community_node,
            build_community_edges [ea; eb; ec; ed; ee] community_node now)) h)
    as [rest1 ->].
  change (map EntityNode.summary [ea; eb; ec; ed; ee]) with [a; b; c; d; e].
  change (length [a; b; c; d; e]) with 5.
  rewrite reduction_loop_step by (simpl; lia).
  destruct (bind_events_prefix (reduction_round svc [a; b; c; d; e])
              (fun new_summaries => reduction_loop svc 4 new_summaries) h) as [rest2 ->].
  rewrite Hround. cbn [snd]. by eexists.
Qed.

(** What [build_community] does once the reduction loop has left one summary. *)
Lemma build_community_after_loop first rest summary ev h :
  let cluster := first :: rest in
  let summaries := map EntityNode.summary cluster in
  reduction_loop svc (length summaries) summaries h = (Ok [summary], ev) ->
  let prompt := summary_description_prompt summary in
  build_community svc cluster h =
  match generate_response svc (h ++ ev) prompt with
  | Returns resp =>
      let created_at := datetime_now svc (h ++ ev ++ [ELLM prompt]) in
      let node := CommunityNode.mk (uuid4 svc (h ++ ev ++ [ELLM prompt; ENow]))
                    (dict_get resp "description" "") (EntityNode.group_id first)
                    ["Community"] created_at summary None in
      (Ok (node, build_community_edges cluster node created_at),
       ev ++ [ELLM prompt; ENow; EUuid])
  | Raises e => (Raise e, ev ++ [ELLM prompt])
  end.
Proof.
  intros cluster summaries Hloop prompt. unfold build_community.
  fold summaries. erewrite bind_ok by exact Hloop. cbv beta.
  match goal with |- (fst ?x, _ ++ snd ?x) = _ => set (tail := x) end.
  assert (Htail : tail =
    match generate_response svc (h ++ ev) prompt with
    | Returns resp =>
        let created_at := datetime_now svc ((h ++ ev) ++ [ELLM prompt]) in
        let node := CommunityNode.mk (uuid4 svc ((h ++ ev) ++ [ELLM prompt; ENow]))
                      (dict_get resp "description" "") (EntityNode.group_id first)
                      ["Community"] created_at summary None in
        (Ok (node, build_community_edges cluster node created_at),
         [ELLM prompt; ENow; EUuid])
    | Raises e => (Raise e, [ELLM prompt])
    end).
  { subst tail. unfold index0 at 1. unfold bind at 1. unfold ret at 1. cbv beta iota.
    rewrite app_nil_r.
    unfold bind at 1. rewrite generate_summary_description_run. fold prompt.
    destruct (generate_response svc (h ++ ev) prompt) as [resp|e]; [|done].
    unfold now, new_CommunityNode, index0, cluster, bind, call, ret. cbn [fst snd app].
    by rewrite <- !app_assoc, !app_nil_r. }
  rewrite Htail. rewrite <- !app_assoc.
  by destruct (generate_response svc (h ++ ev) prompt).
Qed.

Lemma calls_merge_events pairs :
  calls is_summarize_pair (map (merge_event (Vec:=Vec)) pairs) = length pairs.
Proof. unfold calls. induction pairs as [|pair pairs IH]; simpl; [done|by rewrite IH]. Qed.

(** Every sequence is an even-length working sequence followed by at most one
    carried element. *)
Lemma split_carried summaries :
  exists work carried,
    summaries = work ++ carried_list carried /\ Nat.even (length work) = true.
Proof.
  destruct (Nat.even (length summaries)) eqn:Heven.
  - exists summaries, None. by rewrite app_nil_r.
  - destruct summaries as [|x summaries _] using rev_ind; [done|].
    exists summaries, (Some x). split; [done|].
    rewrite length_app in Heven. simpl in Heven.
    rewrite Nat.add_1_r, Nat.even_succ, <- Nat.negb_even in Heven.
    by destruct (Nat.even (length summaries)).
Qed.

(** One round: the number of merges, the new length, no divergence, and
    success when the language model answers. *)
Lemma reduction_round_spec summaries h :
  let run := reduction_round svc summaries h in
  calls is_summarize_pair (snd run) = length summaries / 2 /\
  fst run <> Diverge /\
  (forall new_summaries, fst run = Ok new_summaries ->
     length new_summaries = length summaries / 2 + length summaries mod 2) /\
  ((forall h' p, exists resp, generate_response svc h' p = Returns resp) ->
   exists new_summaries, fst run = Ok new_summaries).
Proof.
  destruct (split_carried summaries) as (work & carried & -> & Heven).
  intros run. subst run.
  rewrite (reduction_round_run work carried h Heven). cbn [fst snd].
  rewrite gather_merges_events, calls_merge_events, (halves_length work Heven).
  set (wave := gather _ h).
  pose proof (gather_merges_not_diverge
                (zip (take (length work / 2) work) (drop (length work / 2) work)) h) as Hnd.
  pose proof (gather_merges_ok
                (zip (take (length work / 2) work) (drop (length work / 2) work)) h) as Hok.
  fold wave in Hnd, Hok.
  apply Nat.even_spec in Heven as Hk. destruct Hk as [k Hk].
  assert (Hc : length (carried_list carried) < 2) by (destruct carried; simpl; lia).
  rewrite length_app.
  assert (Hdiv : (length work + length (carried_list carried)) / 2 = length work / 2).
  { rewrite Hk. replace (2 * k / 2) with k by (by rewrite Nat.mul_comm, Nat.div_mul).
    symmetry. by apply (Nat.div_unique _ 2 k (length (carried_list carried))). }
  assert (Hmod : (length work + length (carried_list carried)) mod 2
                 = length (carried_list carried)).
  { rewrite Hk. symmetry. by apply (Nat.mod_unique _ 2 k). }
  rewrite Hdiv, Hmod.
  split; [done|]. split; [by destruct (fst wave)|]. split.
  - intros new_summaries Hnew.
    destruct (fst wave) as [merged| |]; try done.
    injection Hnew as <-. destruct (Hok merged eq_refl) as [Hlen _].
    rewrite length_app, Hlen. by rewrite (halves_length work Heven).
  - intros Hllm. destruct (gather_merges_total
      (zip (take (length work / 2) work) (drop (length work / 2) work)) h Hllm) as [merged Hm].
    fold wave in Hm. rewrite Hm. by eexists.
Qed.

(** The loop: with a budget of at least the length it never diverges; when it
    returns, one summary is left and [length - 1] merges were issued; it
    returns whenever the language model answers. *)
Lemma reduction_loop_spec fuel summaries h :
  summaries <> [] -> length summaries <= fuel ->
  let run := reduction_loop svc fuel summaries h in
  fst run <> Diverge /\
  (forall final, fst run = Ok final ->
     length final = 1 /\
     calls is_summarize_pair (snd run) = length summaries - 1) /\
  ((forall h' p, exists resp, generate_response svc h' p = Returns resp) ->
   exists final, fst run = Ok final).
Proof.
  revert summaries h. induction fuel as [|fuel IH]; intros summaries h Hne Hfuel run.
  - destruct summaries; [done|simpl in Hfuel; lia].
  - subst run.
    destruct (decide (length summaries <= 1)) as [Hshort|Hlong].
    + rewrite reduction_loop_done by done. unfold ret. cbn [fst snd].
      split; [done|]. split; [|by eexists].
      intros final [= <-]. destruct summaries; [done|]. simpl in *.
      unfold calls. simpl. lia.
    + rewrite reduction_loop_step by lia.
      destruct (reduction_round_spec summaries h) as (Hcalls & Hnd & Hlen & Htotal).
      destruct (reduction_round svc summaries h) as [[new_summaries|e|] ev] eqn:Hround;
        cbn [fst snd] in *.
      * erewrite bind_ok by exact Hround. cbn [fst snd].
        specialize (Hlen new_summaries eq_refl).
        assert (Hnew_ne : new_summaries <> []).
        { intros ->. change (length (@nil string)) with 0 in Hlen.
          pose proof (Nat.div_mod_eq (length summaries) 2). lia. }
        assert (Hnew_fuel : length new_summaries <= fuel).
        { pose proof (Nat.div_mod_eq (length summaries) 2).
          pose proof (Nat.mod_upper_bound (length summaries) 2 ltac:(lia)). lia. }
        destruct (IH new_summaries (h ++ ev) Hnew_ne Hnew_fuel) as (IHnd & IHok & IHtotal).
        split; [done|]. split; [|done].
        intros final Hfinal. destruct (IHok final Hfinal) as [Hone Hrest].
        split; [done|]. rewrite calls_app, Hcalls, Hrest, Hlen.
        pose proof (Nat.div_mod_eq (length summaries) 2). lia.
      * erewrite bind_raise by exact Hround. cbn [fst snd].
        split; [done|]. split; [done|].
        intros Hllm. destruct (Htotal Hllm) as [? ?]. done.
      * done.
Qed.

(** C7: for a single-entity cluster [build_community] issues no
    [summarize_pair] call: its only calls are the naming of the community from
    that entity's own summary, the clock and the node's uuid; the community's
    summary is the entity's summary unchanged and its name is what the
    language model returns for that summary alone. *)
Theorem build_community_single_entity entity h :
  let prompt := summary_description_prompt (EntityNode.summary entity) in
  calls is_summarize_pair (snd (build_community svc [entity] h)) = 0 /\
  build_community svc [entity] h =
  match generate_response svc h prompt with
  | Returns resp =>
      let created_at := datetime_now svc (h ++ [ELLM prompt]) in
      let node := CommunityNode.mk (uuid4 svc (h ++ [ELLM prompt; ENow]))
                    (dict_get resp "description" "") (EntityNode.group_id entity)
                    ["Community"] created_at (EntityNode.summary entity) None in
      (Ok (node, build_community_edges [entity] node created_at),
       [ELLM prompt; ENow; EUuid])
  | Raises e => (Raise e, [ELLM prompt])
  end.
Proof.
  intros prompt.
  pose proof (build_community_after_loop entity [] (EntityNode.summary entity) [] h eq_refl)
    as Hrun.
  cbv zeta in Hrun. rewrite app_nil_r in Hrun. fold prompt in Hrun.
  rewrite Hrun. split; [|done].
  by destruct (generate_response svc h prompt).
Qed.

(** C8: for a non-empty cluster of n entities the reduction loop of
    [build_community] terminates (the iteration budget of n rounds is never
    exhausted, whatever the language model does), and when the language model
    answers every call, [build_community] returns and has invoked
    [summarize_pair] exactly n - 1 times. *)
Theorem build_community_merge_count cluster h :
  cluster <> [] ->
  fst (build_community svc cluster h) <> Diverge /\
  ((forall h' p, exists resp, generate_response svc h' p = Returns resp) ->
   exists community,
     fst (build_community svc cluster h) = Ok community /\
     calls is_summarize_pair (snd (build_community svc cluster h)) = length cluster - 1).
Proof.
  intros Hne. destruct cluster as [|first rest]; [done|].
  assert (Hsne : map EntityNode.summary (first :: rest) <> []) by done.
  destruct (reduction_loop_spec _ _ h Hsne (le_n _)) as (Hnd & Hok & Htotal).
  destruct (reduction_loop svc _ _ h) as [[final|e|] ev] eqn:Hloop; cbn [fst snd] in *.
  - destruct (Hok final eq_refl) as [Hone Hcalls].
    destruct final as [|summary [|]]; try done.
    rewrite (build_community_after_loop first rest summary ev h Hloop).
    split.
    + by destruct (generate_response svc (h ++ ev) _).
    + intros Hllm.
      destruct (Hllm (h ++ ev) (summary_description_prompt summary)) as [resp ->].
      cbv zeta. eexists. split; [done|]. cbn [snd].
      rewrite calls_app, Hcalls, length_map.
      unfold calls. simpl. lia.
  - unfold build_community.
    erewrite bind_raise by exact Hloop. cbn [fst snd].
    split; [done|]. intros Hllm. destruct (Htotal Hllm) as [? ?]. done.
  - done.
Qed.

End SummarizerFacts.

(** ** Entity-community assignment *)

Section DictFacts.
Context {K V : Type} `{EqDecision K}.
Implicit Types d : list (K * V).

Lemma defaultdict_lookup_update default (f : V -> V) d k u :
  defaultdict_lookup (defaultdict_update default f d k) u =
  if decide (u = k)
  then Some (f (match defaultdict_lookup d k with Some v => v | None => default end))
  else defaultdict_lookup d u.
Proof.
  induction d as [|[k' v] d IH]; simpl.
  - destruct (decide (k = u)), (decide (u = k)); congruence.
  - destruct (decide (k' = k)) as [->|Hk]; simpl.
    + destruct (decide (k = u)), (decide (u = k)); congruence.
    + rewrite IH. destruct (decide (k' = u)), (decide (u = k)); congruence.
Qed.

Lemma defaultdict_update_keys default (f : V -> V) d k :
  map fst (defaultdict_update default f d k) =
  map fst d ++ (if decide (k ∈ map fst d) then [] else [k]).
Proof.
  induction d as [|[k' v] d IH].
  - cbn [defaultdict_update map app].
    destruct (decide (k ∈ [])) as [Hin|]; [by apply elem_of_nil in Hin|done].
  - cbn [defaultdict_update map fst]. destruct (decide (k' = k)) as [->|Hk].
    + cbn [map fst].
      destruct (decide (k ∈ k :: map fst d)) as [|Hin]; [by rewrite app_nil_r|].
      destruct Hin. apply list_elem_of_here.
    + cbn [map fst app]. rewrite IH. f_equal.
      destruct (decide (k ∈ map fst d)) as [Hin|Hnin];
        destruct (decide (k ∈ k' :: map fst d)) as [Hin'|Hnin']; try done.
      * destruct Hnin'. by apply list_elem_of_further.
      * apply elem_of_cons in Hin' as [?|?]; congruence.
Qed.

Lemma defaultdict_update_NoDup default (f : V -> V) d k :
  NoDup (map fst d) -> NoDup (map fst (defaultdict_update default f d k)).
Proof.
  intros Hnd. rewrite defaultdict_update_keys.
  destruct (decide (k ∈ map fst d)); [by rewrite app_nil_r|].
  apply NoDup_app. split; [done|]. split; [|apply NoDup_singleton].
  intros x Hx ->%list_elem_of_singleton. done.
Qed.

Lemma defaultdict_lookup_None d k :
  defaultdict_lookup d k = None <-> k ∉ map fst d.
Proof.
  induction d as [|[k' v] d IH]; simpl.
  - split; [intros _; apply not_elem_of_nil|done].
  - destruct (decide (k' = k)) as [->|Hk].
    + split; [done|]. intros Hn. destruct Hn. apply list_elem_of_here.
    + rewrite IH. split.
      * intros Hn [?|?]%elem_of_cons; congruence.
      * intros Hn Hin. apply Hn. by apply list_elem_of_further.
Qed.

Lemma defaultdict_lookup_elem d k v :
  NoDup (map fst d) -> (k, v) ∈ d <-> defaultdict_lookup d k = Some v.
Proof.
  induction d as [|[k' v'] d IH]; simpl; intros Hnd.
  - split; [by intros ?%elem_of_nil|done].
  - apply NoDup_cons in Hnd as [Hk' Hnd].
    destruct (decide (k' = k)) as [->|Hk].
    + split.
      * intros [[= ->]|Hin]%elem_of_cons; [done|].
        destruct Hk'. apply list_elem_of_fmap. by exists (k, v).
      * intros [= ->]. apply list_elem_of_here.
    + rewrite <- (IH Hnd). split.
      * intros [[= -> ->]|Hin]%elem_of_cons; [done|done].
      * intros Hin. by apply list_elem_of_further.
Qed.

End DictFacts.

Section AssignmentFacts.
Context {Vec : Type}.
Variable svc : Services (Vec:=Vec).
Implicit Types h : list (Event (Vec:=Vec)).
Implicit Types communities before after : list (CommunityNode.t Vec).
Implicit Types community_map : list (string * nat).

Lemma votes_app communities1 communities2 uuid :
  votes (communities1 ++ communities2) uuid =
  votes communities1 uuid + votes communities2 uuid.
Proof. unfold votes. by rewrite List.filter_app, length_app. Qed.

Lemma votes_pos communities uuid :
  0 < votes communities uuid <-> uuid ∈ map CommunityNode.uuid communities.
Proof.
  unfold votes. induction communities as [|c communities IH]; simpl.
  - split; [lia|by intros ?%elem_of_nil].
  - rewrite elem_of_cons, <- IH.
    destruct (bool_decide_reflect (CommunityNode.uuid c = uuid)) as [->|Hne]; simpl.
    + split; [by left|lia].
    + split; [by right|]. intros [?|?]; [congruence|done].
Qed.

Lemma tally_snoc communities c :
  tally (communities ++ [c]) =
  defaultdict_update 0 S (tally communities) (CommunityNode.uuid c).
Proof. unfold tally. by rewrite foldl_app. Qed.

(** The tally holds, for every uuid seen, its number of votes. *)
Lemma tally_lookup communities uuid :
  defaultdict_lookup (tally communities) uuid =
  if votes communities uuid =? 0 then None else Some (votes communities uuid).
Proof.
  induction communities as [|c communities IH] using rev_ind; [done|].
  rewrite tally_snoc, defaultdict_lookup_update, votes_app.
  assert (Hc : votes [c] uuid = if decide (uuid = CommunityNode.uuid c) then 1 else 0).
  { unfold votes. simpl.
    destruct (decide (uuid = CommunityNode.uuid c)) as [->|Hne].
    - by rewrite bool_decide_true.
    - by rewrite bool_decide_false by congruence. }
  rewrite Hc.
  destruct (decide (uuid = CommunityNode.uuid c)) as [->|Hne]; rewrite IH.
  - destruct (votes communities (CommunityNode.uuid c)) as [|n] eqn:Hv; simpl; [done|].
    replace (n + 1 =? 0) with false by (symmetry; apply Nat.eqb_neq; lia).
    f_equal. lia.
  - by rewrite Nat.add_0_r.
Qed.

Lemma tally_NoDup communities : NoDup (map fst (tally communities)).
Proof.
  induction communities as [|c communities IH] using rev_ind; [apply NoDup_nil_2|].
  rewrite tally_snoc. by apply defaultdict_update_NoDup.
Qed.

Lemma tally_elem communities uuid count :
  (uuid, count) ∈ tally communities <->
  count = votes communities uuid /\ 0 < count.
Proof.
  rewrite (defaultdict_lookup_elem _ _ _ (tally_NoDup communities)), tally_lookup.
  destruct (votes communities uuid) as [|n]; simpl.
  - split; [done|lia].
  - split; [intros [= <-]; lia|by intros [-> _]].
Qed.

Lemma tally_keys communities uuid :
  uuid ∈ map fst (tally communities) <-> uuid ∈ map CommunityNode.uuid communities.
Proof.
  rewrite <- votes_pos. split.
  - intros ((u & count) & -> & Hin)%list_elem_of_fmap. apply tally_elem in Hin. simpl. lia.
  - intros Hpos. apply list_elem_of_fmap.
    exists (uuid, votes communities uuid). split; [done|]. by apply tally_elem.
Qed.

(** Tallying further communities keeps the keys seen so far in front, in
    their order. *)
Lemma tally_app_keys communities1 communities2 :
  exists seen later,
    tally (communities1 ++ communities2) = seen ++ later /\
    map fst seen = map fst (tally communities1).
Proof.
  induction communities2 as [|c communities2 IH] using rev_ind.
  - exists (tally communities1), []. by rewrite !app_nil_r.
  - destruct IH as (seen & later & Htally & Hseen).
    rewrite app_assoc, tally_snoc.
    pose proof (defaultdict_update_keys 0 S (tally (communities1 ++ communities2))
                  (CommunityNode.uuid c)) as Hkeys.
    rewrite Htally in Hkeys at 2. rewrite map_app, <- app_assoc in Hkeys.
    apply fmap_app_inv in Hkeys as (seen' & later' & Hs & _ & ->).
    exists seen', later'. split; [done|]. by rewrite <- Hseen.
Qed.

(** The scan for the mode from a current leader: either no entry beats the
    leader, or the new leader is the first entry reaching the final maximum. *)
Lemma mode_scan community_map community_uuid max_count :
  let result := foldl (fun '(community_uuid, max_count) '(uuid, count) =>
                         if max_count <? count then (Some uuid, count)
                         else (community_uuid, max_count))
                      (community_uuid, max_count) community_map in
  (result = (community_uuid, max_count) /\
   forall entry, entry ∈ community_map -> snd entry <= max_count) \/
  (exists earlier uuid later,
     community_map = earlier ++ (uuid, snd result) :: later /\
     fst result = Some uuid /\ max_count < snd result /\
     (forall entry, entry ∈ earlier -> snd entry < snd result) /\
     (forall entry, entry ∈ later -> snd entry <= snd result)).
Proof.
  revert community_uuid max_count.
  induction community_map as [|[uuid count] community_map IH];
    intros community_uuid max_count; cbn [foldl].
  - left. split; [done|]. by intros entry ?%elem_of_nil.
  - destruct (max_count <? count) eqn:Hlt.
    + apply Nat.ltb_lt in Hlt. right.
      specialize (IH (Some uuid) count). cbv zeta in IH.
      set (result := foldl _ (Some uuid, count) community_map) in *. clearbody result.
      destruct IH as [[-> Hall]|(earlier & u & later & Heq & Hu & Hmax & He & Hl)].
      * exists [], uuid, community_map. simpl.
        repeat split; try done. by intros entry ?%elem_of_nil.
      * exists ((uuid, count) :: earlier), u, later. rewrite Heq. simpl.
        split; [done|]. split; [done|]. split; [lia|]. split; [|done].
        intros entry [->|Hin]%elem_of_cons; [done|by apply He].
    + apply Nat.ltb_ge in Hlt.
      specialize (IH community_uuid max_count). cbv zeta in IH.
      set (result := foldl _ (community_uuid, max_count) community_map) in *.
      clearbody result.
      destruct IH as [[-> Hall]|(earlier & u & later & Heq & Hu & Hmax & He & Hl)].
      * left. split; [done|].
        intros entry [->|Hin]%elem_of_cons; [done|by apply Hall].
      * right. exists ((uuid, count) :: earlier), u, later. rewrite Heq. simpl.
        split; [done|]. split; [done|]. split; [done|]. split; [|done].
        intros entry [->|Hin]%elem_of_cons; [simpl; lia|by apply He].
Qed.

(** [for community in communities: if community.uuid == community_uuid: return] *)
Lemma find_first_with_uuid communities uuid :
  uuid ∈ map CommunityNode.uuid communities ->
  exists before community after,
    communities = before ++ community :: after /\
    CommunityNode.uuid community = uuid /\
    (uuid ∉ map CommunityNode.uuid before) /\
    find (fun community =>
            bool_decide (Some (CommunityNode.uuid community) = Some uuid))
         communities = Some community.
Proof.
  induction communities as [|c communities IH]; [by intros ?%elem_of_nil|].
  intros Hin. simpl.
  destruct (decide (CommunityNode.uuid c = uuid)) as [Heq|Hne].
  - exists [], c, communities. rewrite bool_decide_true by congruence.
    split; [done|]. split; [done|]. split; [apply not_elem_of_nil|done].
  - rewrite bool_decide_false by congruence.
    simpl in Hin. apply elem_of_cons in Hin as [?|Hin]; [congruence|].
    destruct (IH Hin) as (before & community & after & -> & Hu & Hnot & Hfind).
    exists (c :: before), community, after. simpl.
    split; [done|]. split; [done|]. split; [|done].
    intros [?|?]%elem_of_cons; [congruence|done].
Qed.


(** The run of [determine_entity_community], by the answers of the store. *)
Lemma determine_entity_community_run entity h :
  let lookup := QEntityCommunity (EntityNode.uuid entity) in
  let neighbours := QNeighbourCommunities (EntityNode.uuid entity) in
  determine_entity_community svc entity h =
  match execute_query svc h lookup with
  | Raises e => (Raise e, [EQuery lookup])
  | Returns (record :: _) =>
      (Ok (Some (get_community_node_from_record svc record), false), [EQuery lookup])
  | Returns [] =>
      match execute_query svc (h ++ [EQuery lookup]) neighbours with
      | Raises e => (Raise e, [EQuery lookup; EQuery neighbours])
      | Returns records =>
          let communities := map (get_community_node_from_record svc) records in
          (Ok (let '(community_uuid, max_count) := mode (tally communities) in
               if max_count =? 0 then (None, false)
               else match find (fun community =>
                                  bool_decide (Some (CommunityNode.uuid community)
                                               = community_uuid))
                               communities with
                    | Some community => (Some community, true)
                    | None => (None, false)
                    end),
           [EQuery lookup; EQuery neighbours])
      end
  end.
Proof.
  intros lookup neighbours.
  unfold determine_entity_community, driver_execute_query, bind, call.
  fold lookup neighbours.
  destruct (execute_query svc h lookup) as [[|record records1]|e]; [|done|done].
  destruct (execute_query svc (h ++ [EQuery lookup]) neighbours) as [records|e]; [|done].
  cbv zeta.
  destruct (mode (tally (map (get_community_node_from_record svc) records)))
    as [community_uuid max_count].
  destruct (max_count =? 0); [done|].
  by destruct (find _ _).
Qed.

(** The selection among the neighbours' communities. *)
Lemma mode_of_tally communities :
  communities <> [] ->
  exists before community after,
    communities = before ++ community :: after /\
    (mode (tally communities)
      = (Some (CommunityNode.uuid community),
         votes communities (CommunityNode.uuid community))) /\
    (0 < votes communities (CommunityNode.uuid community)) /\
    (find (fun c => bool_decide (Some (CommunityNode.uuid c)
                                 = Some (CommunityNode.uuid community)))
          communities = Some community) /\
    (forall c, c ∈ before ->
       votes communities (CommunityNode.uuid c)
       < votes communities (CommunityNode.uuid community)) /\
    (forall c, c ∈ after ->
       votes communities (CommunityNode.uuid c)
       <= votes communities (CommunityNode.uuid community)).
Proof.
  intros Hne.
  assert (Hall : forall c, c ∈ communities ->
            (CommunityNode.uuid c, votes communities (CommunityNode.uuid c))
            ∈ tally communities).
  { intros c Hc. apply tally_elem. split; [done|]. apply votes_pos.
    by apply list_elem_of_fmap_2. }
  destruct (mode_scan (tally communities) None 0)
    as [[_ Hzero]|(earlier & uuid & later & Htally & Hu & Hpos & He & Hl)].
  { destruct communities as [|c communities]; [done|].
    specialize (Hzero _ (Hall c (list_elem_of_here _ _))).
    assert (0 < votes (c :: communities) (CommunityNode.uuid c)); [|simpl in *; lia].
    apply votes_pos. apply list_elem_of_here. }
  fold (mode (tally communities)) in Htally, Hu, Hpos, He, Hl.
  destruct (mode (tally communities)) as [community_uuid max_count] eqn:Hmode.
  simpl in Htally, Hu, Hpos, He, Hl. subst community_uuid.
  assert (Hwinner : (uuid, max_count) ∈ tally communities).
  { rewrite Htally. apply elem_of_app. right. apply list_elem_of_here. }
  apply tally_elem in Hwinner as [-> _].
  assert (Hmax : forall c, c ∈ communities ->
            votes communities (CommunityNode.uuid c) <= votes communities uuid).
  { intros c Hc. specialize (Hall c Hc). rewrite Htally in Hall.
    apply elem_of_app in Hall as [Hin|Hin].
    - specialize (He _ Hin). simpl in He. lia.
    - apply elem_of_cons in Hin as [[= -> _]|Hin]; [done|]. apply (Hl _ Hin). }
  destruct (find_first_with_uuid communities uuid) as
    (before & community & after & Hsplit & Huuid & Hfirst & Hfind).
  { by apply votes_pos. }
  exists before, community, after. rewrite Huuid.
  split; [done|]. split; [done|]. split; [done|]. split; [done|]. split.
  - intros c Hc.
    destruct (tally_app_keys before (community :: after))
      as (seen & later' & Hsl & Hseen).
    rewrite <- Hsplit in Hsl.
    assert (Hcseen : CommunityNode.uuid c ∈ map fst seen).
    { rewrite Hseen. apply tally_keys. by apply list_elem_of_fmap_2. }
    assert (Hwseen : uuid ∉ map fst seen).
    { rewrite Hseen. by rewrite tally_keys. }
    apply list_elem_of_fmap in Hcseen as ([u n] & Hcu & Hentry). simpl in Hcu. subst u.
    assert (Hn : n = votes communities (CommunityNode.uuid c)).
    { apply (tally_elem communities (CommunityNode.uuid c) n).
      rewrite Hsl. apply elem_of_app. by left. }
    rewrite Htally in Hsl.
    apply List.app_eq_app in Hsl as [rest [[-> Hrest]|[-> Hrest]]].
    + specialize (He (CommunityNode.uuid c, n)). simpl in He. rewrite <- Hn.
      apply He. apply elem_of_app. by left.
    + destruct rest as [|entry rest].
      * rewrite app_nil_r in *. specialize (He _ Hentry). simpl in He. lia.
      * injection Hrest as <- ->. destruct Hwseen.
        rewrite map_app. apply elem_of_app. right. simpl. apply list_elem_of_here.
  - intros c Hc. apply Hmax. rewrite Hsplit. apply elem_of_app. right.
    by apply list_elem_of_further.
Qed.

(** C3: when the entity has no direct membership and the neighbour query
    returns at least one community, [determine_entity_community] returns
    [(community, true)] where [community] is the first result row whose uuid
    has the highest vote count: every community met before it in result order
    has strictly fewer votes, and no community after it has more, so a later
    community with an equal count never displaces it. *)
Theorem determine_entity_community_first_mode entity h records :
  let lookup := QEntityCommunity (EntityNode.uuid entity) in
  let neighbours := QNeighbourCommunities (EntityNode.uuid entity) in
  execute_query svc h lookup = Returns [] ->
  execute_query svc (h ++ [EQuery lookup]) neighbours = Returns records ->
  records <> [] ->
  let communities := map (get_community_node_from_record svc) records in
  exists before community after,
    communities = before ++ community :: after /\
    fst (determine_entity_community svc entity h) = Ok (Some community, true) /\
    (forall c, c ∈ before ->
       votes communities (CommunityNode.uuid c)
       < votes communities (CommunityNode.uuid community)) /\
    (forall c, c ∈ after ->
       votes communities (CommunityNode.uuid c)
       <= votes communities (CommunityNode.uuid community)).
Proof.
  intros lookup neighbours Hlookup Hneighbours Hne communities.
  assert (Hcne : communities <> []) by (unfold communities; by destruct records).
  destruct (mode_of_tally communities Hcne)
    as (before & community & after & Hsplit & Hmode & Hpos & Hfind & Hbefore & Hafter).
  exists before, community, after.
  split; [done|]. split; [|done].
  rewrite determine_entity_community_run. fold lookup neighbours.
  rewrite Hlookup, Hneighbours. cbv zeta. fold communities. cbn [fst].
  rewrite Hmode.
  replace (votes communities (CommunityNode.uuid community) =? 0) with false
    by (symmetry; apply Nat.eqb_neq; lia).
  by rewrite Hfind.
Qed.

(** C9: [determine_entity_community] never returns [(None, true)]: when the
    community returned is none the flag is false, and when the flag is true
    the community returned is one of the neighbours' communities and no
    community among them has more votes. *)
Theorem determine_entity_community_never_none_true entity h community is_new :
  fst (determine_entity_community svc entity h) = Ok (community, is_new) ->
  (community = None -> is_new = false) /\
  (is_new = true ->
   exists c records,
     community = Some c /\
     execute_query svc (h ++ [EQuery (QEntityCommunity (EntityNode.uuid entity))])
                   (QNeighbourCommunities (EntityNode.uuid entity)) = Returns records /\
     let communities := map (get_community_node_from_record svc) records in
     c ∈ communities /\
     forall c', c' ∈ communities ->
       votes communities (CommunityNode.uuid c')
       <= votes communities (CommunityNode.uuid c)).
Proof.
  rewrite determine_entity_community_run.
  destruct (execute_query svc h _) as [[|record records1]|e]; cbn [fst]; [| |done].
  - destruct (execute_query svc (h ++ _) _) as [records|e] eqn:Hneighbours;
      cbn [fst]; [|done].
    cbv zeta.
    destruct (decide (map (get_community_node_from_record svc) records = []))
      as [Hnil|Hne].
    + rewrite Hnil. cbn. by intros [= <- <-].
    + destruct (mode_of_tally _ Hne)
        as (before & c & after & Hsplit & Hmode & Hpos & Hfind & Hbefore & Hafter).
      rewrite Hmode.
      replace (votes _ (CommunityNode.uuid c) =? 0) with false
        by (symmetry; apply Nat.eqb_neq; lia).
      rewrite Hfind. intros [= <- <-]. split; [done|]. intros _.
      exists c, records. split; [done|]. split; [done|]. cbv zeta.
      split.
      * rewrite Hsplit. apply elem_of_app. right. apply list_elem_of_here.
      * intros c' Hin. rewrite Hsplit in Hin.
        apply elem_of_app in Hin as [Hin|[->|Hin]%elem_of_cons].
        -- specialize (Hbefore c' Hin). lia.
        -- done.
        -- by apply Hafter.
  - by intros [= <- <-].
Qed.

(** The calls of [determine_entity_community] are its two lookups. *)
Lemma determine_entity_community_events entity h :
  forall ev, ev ∈ snd (determine_entity_community svc entity h) ->
             is_membership_lookup ev = true.
Proof.
  rewrite determine_entity_community_run.
  destruct (execute_query svc h _) as [[|record records1]|e]; cbn [snd].
  - destruct (execute_query svc (h ++ _) _) as [records|e]; cbn [snd];
      intros ev [->|[->|?%elem_of_nil]%elem_of_cons]%elem_of_cons; done.
  - intros ev [->|?%elem_of_nil]%elem_of_cons; done.
  - intros ev [->|?%elem_of_nil]%elem_of_cons; done.
Qed.

Lemma calls_none {Ev} (p : Ev -> bool) (t : list Ev) :
  (forall ev, ev ∈ t -> p ev = false) -> calls p t = 0.
Proof.
  unfold calls. induction t as [|ev t IH]; [done|]. intros Hall. simpl.
  rewrite (Hall ev (list_elem_of_here _ _)). apply IH.
  intros ev' Hin. apply Hall. by apply list_elem_of_further.
Qed.

End AssignmentFacts.

(** ** Incremental update *)

Section UpdateFacts.
Context {Vec : Type}.
Variable svc : Services (Vec:=Vec).
Implicit Types h : list (Event (Vec:=Vec)).

(** What [update_community] does after the assignment resolved to a
    community the entity newly joins. *)
Lemma update_community_new_run entity community ev0 h :
  determine_entity_community svc entity h = (Ok (Some community, true), ev0) ->
  let h0 := h ++ ev0 in
  let merge := ELLM (summarize_pair_prompt
                       [EntityNode.summary entity; CommunityNode.summary community]) in
  update_community svc entity h =
  match generate_response svc h0 (summarize_pair_prompt
          [EntityNode.summary entity; CommunityNode.summary community]) with
  | Raises e => (Raise e, ev0 ++ [merge])
  | Returns resp1 =>
      let new_summary := dict_get resp1 "summary" "" in
      let describe := ELLM (summary_description_prompt new_summary) in
      match generate_response svc (h0 ++ [merge]) (summary_description_prompt new_summary) with
      | Raises e => (Raise e, ev0 ++ [merge; describe])
      | Returns resp2 =>
          let new_name := dict_get resp2 "description" "" in
          let renamed := CommunityNode.set_name
                           (CommunityNode.set_summary community new_summary) new_name in
          let created_at := datetime_now svc (h0 ++ [merge; describe]) in
          let edge := CommunityEdge.mk (CommunityNode.uuid community)
                        (EntityNode.uuid entity) created_at
                        (CommunityNode.group_id community) in
          match save_edge svc (h0 ++ [merge; describe; ENow]) edge with
          | Raises e => (Raise e, ev0 ++ [merge; describe; ENow; ESaveEdge edge])
          | Returns _ =>
              match embed svc (h0 ++ [merge; describe; ENow; ESaveEdge edge]) new_name with
              | Raises e =>
                  (Raise e, ev0 ++ [merge; describe; ENow; ESaveEdge edge; EEmbed new_name])
              | Returns v =>
                  let updated := CommunityNode.set_name_embedding renamed v in
                  (match save_node svc (h0 ++ [merge; describe; ENow; ESaveEdge edge;
                                               EEmbed new_name]) updated with
                   | Returns _ => Ok tt
                   | Raises e => Raise e
                   end,
                   ev0 ++ [merge; describe; ENow; ESaveEdge edge; EEmbed new_name;
                           ESaveNode updated])
              end
          end
      end
  end.
Proof.
  intros Hassign h0 merge. subst h0 merge.
  unfold update_community. unfold bind at 1. rewrite Hassign.
  cbv beta iota zeta delta [bind ret call now index0 generate_name_embedding
    summarize_pair generate_summary_description llm_generate_response
    build_community_edges map fst snd].
  destruct (generate_response svc (h ++ ev0) _) as [resp1|e]; [|done].
  cbv beta iota. rewrite <- ?app_assoc, ?app_nil_r. cbn [app].
  destruct (generate_response svc _ _) as [resp2|e]; [|done].
  cbv beta iota. rewrite <- ?app_assoc, ?app_nil_r.
  cbn [app CommunityNode.set_name CommunityNode.set_summary CommunityNode.uuid
       CommunityNode.group_id CommunityNode.name].
  destruct (save_edge svc _ _) as [[]|e]; [|done].
  cbv beta iota. rewrite <- ?app_assoc, ?app_nil_r. cbn [app].
  destruct (embed svc _ _) as [v|e]; [|done].
  cbv beta iota. rewrite <- ?app_assoc, ?app_nil_r. cbn [app].
  by destruct (save_node svc _ _) as [[]|e].
Qed.

Lemma assignment_calls entity h (p : Event (Vec:=Vec) -> bool) :
  (forall ev, is_membership_lookup ev = true -> p ev = false) ->
  calls p (snd (determine_entity_community svc entity h)) = 0.
Proof.
  intros Hp. apply calls_none. intros ev Hin. apply Hp.
  by apply (determine_entity_community_events svc entity h).
Qed.

(** C5: for an entity whose assignment resolves to a community with
    [is_new = true], a run of [update_community] that completes has issued,
    after the assignment lookups, exactly: the pair merge, the naming, the
    clock, the save of one new community-to-entity edge, one regeneration of
    the name embedding, and then the save of the updated community node; and
    it completes whenever the language model, the embedder and the two saves
    answer. *)
Theorem update_community_new_member entity h community ev0 :
  determine_entity_community svc entity h = (Ok (Some community, true), ev0) ->
  (forall ev, update_community svc entity h = (Ok tt, ev) ->
     exists new_summary new_name created_at v,
       let edge := CommunityEdge.mk (CommunityNode.uuid community)
                     (EntityNode.uuid entity) created_at
                     (CommunityNode.group_id community) in
       let updated := CommunityNode.set_name_embedding
                        (CommunityNode.set_name
                           (CommunityNode.set_summary community new_summary) new_name) v in
       ev = ev0 ++ [ELLM (summarize_pair_prompt [EntityNode.summary entity;
                                                 CommunityNode.summary community]);
                    ELLM (summary_description_prompt new_summary);
                    ENow; ESaveEdge edge; EEmbed new_name; ESaveNode updated] /\
       calls is_save_edge ev = 1 /\ calls is_embed ev = 1 /\ calls is_save_node ev = 1) /\
  ((forall h' p, exists resp, generate_response svc h' p = Returns resp) ->
   (forall h' text, exists v, embed svc h' text = Returns v) ->
   (forall h' edge, save_edge svc h' edge = Returns tt) ->
   (forall h' node, save_node svc h' node = Returns tt) ->
   exists ev, update_community svc entity h = (Ok tt, ev)).
Proof.
  intros Hassign.
  pose proof (update_community_new_run entity community ev0 h Hassign) as Hrun.
  cbv zeta in Hrun.
  assert (Hev0 : forall p : Event (Vec:=Vec) -> bool,
            (forall ev, is_membership_lookup ev = true -> p ev = false) ->
            calls p ev0 = 0).
  { intros p Hp. pose proof (assignment_calls entity h p Hp) as Hc.
    by rewrite Hassign in Hc. }
  split.
  - intros ev Hok. rewrite Hrun in Hok.
    destruct (generate_response svc (h ++ ev0) _) as [resp1|e]; [|done].
    destruct (generate_response svc _ _) as [resp2|e]; [|done].
    destruct (save_edge svc _ _) as [[]|e]; [|done].
    destruct (embed svc _ _) as [v|e]; [|done].
    injection Hok as _ <-.
    eexists _, _, _, v. cbv zeta. split; [reflexivity|].
    rewrite !calls_app, !Hev0 by (by intros [[]| | | | | | |]).
    done.
  - intros Hllm Hembed Hedge Hnode. rewrite Hrun.
    destruct (Hllm (h ++ ev0) (summarize_pair_prompt
                [EntityNode.summary entity; CommunityNode.summary community]))
      as [resp1 ->].
    match goal with |- context [generate_response svc ?h' ?p] =>
      destruct (Hllm h' p) as [resp2 ->] end.
    rewrite Hedge.
    match goal with |- context [embed svc ?h' ?t] =>
      destruct (Hembed h' t) as [v ->] end.
    rewrite Hnode. by eexists.
Qed.

(** C6: for an entity whose assignment resolves to none, [update_community]
    returns normally right after the assignment lookups: it issues no further
    call, so no edge save, no embedding generation, no community save and no
    other write reaches the store. *)
Theorem update_community_unassigned_noop entity h is_new ev0 :
  determine_entity_community svc entity h = (Ok (None, is_new), ev0) ->
  update_community svc entity h = (Ok tt, ev0) /\
  calls is_effectful ev0 = 0 /\
  calls is_save_edge ev0 = 0 /\ calls is_embed ev0 = 0 /\ calls is_save_node ev0 = 0.
Proof.
  intros Hassign. split.
  - unfold update_community. erewrite bind_ok by exact Hassign.
    unfold ret. cbn [fst snd]. by rewrite app_nil_r.
  - pose proof (fun p Hp => assignment_calls entity h p Hp) as Hc.
    rewrite Hassign in Hc. cbn [snd] in Hc.
    repeat split; apply Hc; intros ev Hev; by destruct ev as [[]| | | | | | |].
Qed.

End UpdateFacts.

(** ** Full rebuild and the lifetime of the projection *)

Section EmitsFacts.
Context {Ev E : Type}.
Implicit Types P : Ev -> Prop.

Lemma emits_ret {A} P (a : A) : emits (E:=E) P (ret a).
Proof. by intros h ev ?%elem_of_nil. Qed.

Lemma emits_raise {A} P (e : E) : emits P (raise (A:=A) e).
Proof. by intros h ev ?%elem_of_nil. Qed.

Lemma emits_diverge {A} P : emits (E:=E) P (diverge (A:=A)).
Proof. by intros h ev ?%elem_of_nil. Qed.

Lemma emits_bind {A B} P (m : comp (Ev:=Ev) (E:=E) A) (k : A -> comp B) :
  emits P m -> (forall a, emits P (k a)) -> emits P (bind m k).
Proof.
  intros Hm Hk h ev. unfold bind. specialize (Hm h).
  destruct (m h) as [[a|e|] ev1]; cbn [snd] in *; [|by apply Hm..].
  specialize (Hk a (h ++ ev1)). destruct (k a (h ++ ev1)) as [r ev2]. cbn [snd] in *.
  intros [?|?]%elem_of_app; [by apply Hm|by apply Hk].
Qed.

Lemma emits_gather {A} P (tasks : list (comp (Ev:=Ev) (E:=E) A)) :
  (forall task, task ∈ tasks -> emits P task) -> emits P (gather tasks).
Proof.
  induction tasks as [|task tasks IH]; intros Htasks h ev; [by intros ?%elem_of_nil|].
  simpl. pose proof (Htasks task (list_elem_of_here _ _) h) as Htask.
  destruct (task h) as [r ev1].
  assert (Hrest : emits P (gather tasks)).
  { apply IH. intros t Ht. apply Htasks. by apply list_elem_of_further. }
  specialize (Hrest (h ++ ev1)). destruct (gather tasks (h ++ ev1)) as [rs ev2].
  cbn [snd] in *. intros [?|?]%elem_of_app; [by apply Htask|by apply Hrest].
Qed.

Lemma emits_for_each {A S} P (body : S -> A -> comp (Ev:=Ev) (E:=E) S) (l : list A) :
  (forall s x, emits P (body s x)) -> forall s, emits P (for_each body s l).
Proof.
  intros Hbody. induction l as [|x l IH]; intros s; simpl; [apply emits_ret|].
  apply emits_bind; [apply Hbody|apply IH].
Qed.

Lemma emits_index0 {A} P (l : list A) (e : E) : emits P (index0 l e).
Proof. destruct l; [apply emits_raise|apply emits_ret]. Qed.

Lemma bind_assoc {A B C} (m : comp (Ev:=Ev) (E:=E) A) (f : A -> comp B) (g : B -> comp C) h :
  bind (bind m f) g h = bind m (fun a => bind (f a) g) h.
Proof.
  unfold bind. destruct (m h) as [[a|e|] ev1]; [|done..].
  destruct (f a (h ++ ev1)) as [[b|e|] ev2]; [|done..].
  rewrite <- app_assoc. destruct (g b (h ++ ev1 ++ ev2)) as [r ev3].
  by rewrite <- app_assoc.
Qed.

End EmitsFacts.

Lemma emits_call {Ev A} (P : Ev -> Prop) (ev : Ev) (answer : list Ev -> reply A) :
  P ev -> emits P (call ev answer).
Proof. intros HP h ev'. unfold call. cbn [snd]. by intros ->%list_elem_of_singleton. Qed.

Section TeardownFacts.
Context {Vec : Type}.
Variable svc : Services (Vec:=Vec).
Implicit Types h : list (Event (Vec:=Vec)).

Lemma summarize_pair_keeps pair : emits keeps_projection (summarize_pair svc pair).
Proof.
  intros h ev. rewrite summarize_pair_run. cbn [snd].
  by intros ->%list_elem_of_singleton.
Qed.

Lemma generate_summary_description_keeps summary :
  emits keeps_projection (generate_summary_description svc summary).
Proof.
  intros h ev. rewrite generate_summary_description_run. cbn [snd].
  by intros ->%list_elem_of_singleton.
Qed.

Lemma reduction_round_keeps summaries :
  emits keeps_projection (reduction_round svc summaries).
Proof.
  unfold reduction_round. apply emits_bind.
  - destruct (_ =? 1); [|apply emits_ret].
    destruct (pop summaries) as [[rest last]|]; [apply emits_ret|apply emits_raise].
  - intros [[work length] odd_one_out]. apply emits_bind; [|intros; apply emits_ret].
    apply emits_gather. intros task (pair & -> & _)%list_elem_of_fmap.
    apply summarize_pair_keeps.
Qed.

Lemma reduction_loop_keeps fuel summaries :
  emits keeps_projection (reduction_loop svc fuel summaries).
Proof.
  revert summaries. induction fuel as [|fuel IH]; intros summaries; simpl.
  - destruct (1 <? length summaries); [apply emits_diverge|apply emits_ret].
  - destruct (1 <? length summaries); [|apply emits_ret].
    apply emits_bind; [apply reduction_round_keeps|apply IH].
Qed.

Lemma build_community_keeps cluster :
  emits keeps_projection (build_community svc cluster).
Proof.
  unfold build_community, now, new_CommunityNode.
  repeat first
    [ apply reduction_loop_keeps | apply generate_summary_description_keeps
    | apply emits_index0 | apply emits_ret | by apply emits_call
    | apply emits_bind; [|intros ?] ].
Qed.

Lemma get_community_clusters_keeps projection :
  emits keeps_projection (get_community_clusters svc projection).
Proof.
  unfold get_community_clusters, driver_execute_query.
  apply emits_bind; [by apply emits_call|intros records].
  apply emits_bind.
  - apply emits_for_each. intros community_map record. unfold getitem.
    apply emits_bind; [destruct (record !! _); [apply emits_ret|apply emits_raise]|].
    intros communityId.
    apply emits_bind; [destruct (record !! _); [apply emits_ret|apply emits_raise]|].
    intros entity_uuid. apply emits_ret.
  - intros community_map. apply emits_gather.
    intros task (cluster & -> & _)%list_elem_of_fmap. by apply emits_call.
Qed.

Lemma cluster_and_build_keeps projection :
  emits keeps_projection (cluster_and_build svc projection).
Proof.
  unfold cluster_and_build.
  apply emits_bind; [apply get_community_clusters_keeps|intros clusters].
  apply emits_gather. intros task (cluster & -> & _)%list_elem_of_fmap.
  apply build_community_keeps.
Qed.

Lemma build_community_projection_keeps :
  emits keeps_projection (build_community_projection svc).
Proof.
  unfold build_community_projection, driver_execute_query, getitem.
  apply emits_bind; [by apply emits_call|intros records].
  apply emits_bind; [apply emits_index0|intros first].
  destruct (first !! _); [apply emits_ret|apply emits_raise].
Qed.

Lemma destroy_projection_run projection h :
  destroy_projection svc projection h =
  (match execute_query svc h (QDropProjection projection) with
   | Returns _ => Ok tt
   | Raises e => Raise e
   end, [EQuery (QDropProjection projection)]).
Proof.
  unfold destroy_projection, driver_execute_query, bind, call, ret.
  by destruct (execute_query svc h _).
Qed.

(** C2 (as amended): after [build_communities] has built a projection, if
    the clustering step and every [build_community] task succeed,
    [destroy_projection] is invoked on that projection exactly once, as the
    last call of [build_communities]; if the clustering step or a
    [build_community] task fails, the failure is raised to the caller and
    [destroy_projection] is not invoked. *)
Theorem build_communities_teardown h projection ev :
  build_community_projection svc h = (Ok projection, ev) ->
  let stage := cluster_and_build svc projection (h ++ ev) in
  let run := build_communities svc h in
  match fst stage with
  | Ok communities =>
      snd run = ev ++ snd stage ++ [EQuery (QDropProjection projection)] /\
      calls is_destroy_projection (snd run) = 1 /\
      fst run = match execute_query svc (h ++ ev ++ snd stage)
                                    (QDropProjection projection) with
                | Returns _ => Ok (map fst communities, concat (map snd communities))
                | Raises e => Raise e
                end
  | Raise e =>
      run = (Raise e, ev ++ snd stage) /\
      calls is_destroy_projection (snd run) = 0
  | Diverge =>
      run = (Diverge, ev ++ snd stage) /\
      calls is_destroy_projection (snd run) = 0
  end.
Proof.
  intros Hproj stage run.
  assert (Hkeep : calls is_destroy_projection (ev ++ snd stage) = 0).
  { apply calls_none. intros e [Hin|Hin]%elem_of_app.
    - apply (build_community_projection_keeps h). by rewrite Hproj.
    - by apply (cluster_and_build_keeps projection (h ++ ev)). }
  assert (Hrun : run =
    (fst (bind (cluster_and_build svc projection)
               (fun communities =>
                  _ <- destroy_projection svc projection ;;
                  ret (map fst communities, concat (map snd communities))) (h ++ ev)),
     ev ++ snd (bind (cluster_and_build svc projection)
               (fun communities =>
                  _ <- destroy_projection svc projection ;;
                  ret (map fst communities, concat (map snd communities))) (h ++ ev)))).
  { subst run. unfold build_communities. erewrite bind_ok by exact Hproj.
    unfold cluster_and_build. by rewrite bind_assoc. }
  unfold bind at 1 3 in Hrun. fold stage in Hrun.
  destruct stage as [[communities|e|] ev1]; cbn [fst snd] in *.
  - unfold bind, ret in Hrun. rewrite destroy_projection_run, <- app_assoc in Hrun.
    assert (Hsnd : snd run = ev ++ ev1 ++ [EQuery (QDropProjection projection)]).
    { rewrite Hrun. destruct (execute_query svc _ _); reflexivity. }
    split; [done|]. split.
    + rewrite Hsnd, app_assoc, calls_app, Hkeep. done.
    + rewrite Hrun. destruct (execute_query svc _ _); reflexivity.
  - by rewrite Hrun.
  - by rewrite Hrun.
Qed.

End TeardownFacts.

(** ** The API wrappers *)

Section ServerFacts.
Context {EntityEdge EpisodicNode : Type}.
Variable graph : Graph (EntityEdge:=EntityEdge) (EpisodicNode:=EpisodicNode).
Implicit Types h : list (ApiEvent (EntityEdge:=EntityEdge) (EpisodicNode:=EpisodicNode)).

(** Translation of an exception caught by [except EdgeNotFoundError]. *)
Lemma get_entity_edge_run uuid h :
  get_entity_edge graph uuid h =
  (match EntityEdge_get_by_uuid graph h uuid with
   | Returns edge => Ok edge
   | Raises (EdgeNotFoundError message) => Raise (HTTPException 404 message)
   | Raises e => Raise (Propagated e)
   end, [EEntityEdge_get_by_uuid uuid]).
Proof.
  unfold get_entity_edge, try_except_EdgeNotFoundError, bind, call, ret, raise.
  destruct (EntityEdge_get_by_uuid graph h uuid) as [edge|[]]; by rewrite ?app_nil_r.
Qed.

Lemma delete_entity_edge_run uuid h :
  delete_entity_edge graph uuid h =
  match EntityEdge_get_by_uuid graph h uuid with
  | Returns edge =>
      (match EntityEdge_delete graph (h ++ [EEntityEdge_get_by_uuid uuid]) edge with
       | Deleted => Ok tt
       | DeleteFails detail => Raise (Propagated (ServiceError detail))
       end, [EEntityEdge_get_by_uuid uuid; EEntityEdge_delete edge])
  | Raises (EdgeNotFoundError message) =>
      (Raise (HTTPException 404 message), [EEntityEdge_get_by_uuid uuid])
  | Raises e => (Raise (Propagated e), [EEntityEdge_get_by_uuid uuid])
  end.
Proof.
  unfold delete_entity_edge, try_except_EdgeNotFoundError, bind, call, ret, raise.
  destruct (EntityEdge_get_by_uuid graph h uuid) as [edge|[]]; try by rewrite ?app_nil_r.
  by destruct (EntityEdge_delete graph _ edge).
Qed.

Lemma delete_episodic_node_run uuid h :
  delete_episodic_node graph uuid h =
  match EpisodicNode_get_by_uuid graph h uuid with
  | Returns episode =>
      (match EpisodicNode_delete graph (h ++ [EEpisodicNode_get_by_uuid uuid]) episode with
       | Deleted => Ok tt
       | DeleteFails detail => Raise (Propagated (ServiceError detail))
       end, [EEpisodicNode_get_by_uuid uuid; EEpisodicNode_delete episode])
  | Raises (NodeNotFoundError message) =>
      (Raise (HTTPException 404 message), [EEpisodicNode_get_by_uuid uuid])
  | Raises e => (Raise (Propagated e), [EEpisodicNode_get_by_uuid uuid])
  end.
Proof.
  unfold delete_episodic_node, try_except_NodeNotFoundError, bind, call, ret, raise.
  destruct (EpisodicNode_get_by_uuid graph h uuid) as [episode|[]];
    try by rewrite ?app_nil_r.
  by destruct (EpisodicNode_delete graph _ episode).
Qed.

(** C10: [get_entity_edge] and [delete_entity_edge] raise an
    [HTTPException], with status 404 and the message of the error as detail,
    exactly when the lookup raises [EdgeNotFoundError];
    [delete_episodic_node] does so exactly when the lookup raises
    [NodeNotFoundError].  Any other exception of the lookup, and a failure of
    the delete call, propagates untranslated.  When the lookup raises no
    delete call is made; when it returns, [get_entity_edge] returns the edge
    and the delete operations issue the delete call for the object found and
    return once it goes through. *)
Theorem not_found_becomes_404 uuid h :
  let edge_lookup := EntityEdge_get_by_uuid graph h uuid in
  let edge_delete := EntityEdge_delete graph (h ++ [EEntityEdge_get_by_uuid uuid]) in
  let episode_lookup := EpisodicNode_get_by_uuid graph h uuid in
  let episode_delete := EpisodicNode_delete graph (h ++ [EEpisodicNode_get_by_uuid uuid]) in
  (* get_entity_edge *)
  (forall status detail,
     fst (get_entity_edge graph uuid h) = Raise (HTTPException status detail) <->
     status = 404%Z /\ edge_lookup = Raises (EdgeNotFoundError detail)) /\
  (forall e, edge_lookup = Raises e -> (forall message, e <> EdgeNotFoundError message) ->
     fst (get_entity_edge graph uuid h) = Raise (Propagated e)) /\
  (forall edge, edge_lookup = Returns edge ->
     get_entity_edge graph uuid h = (Ok edge, [EEntityEdge_get_by_uuid uuid])) /\
  (* delete_entity_edge *)
  (forall status detail,
     fst (delete_entity_edge graph uuid h) = Raise (HTTPException status detail) <->
     status = 404%Z /\ edge_lookup = Raises (EdgeNotFoundError detail)) /\
  (forall e, edge_lookup = Raises e ->
     calls is_delete (snd (delete_entity_edge graph uuid h)) = 0 /\
     ((forall message, e <> EdgeNotFoundError message) ->
      fst (delete_entity_edge graph uuid h) = Raise (Propagated e))) /\
  (forall edge, edge_lookup = Returns edge ->
     delete_entity_edge graph uuid h =
     (match edge_delete edge with
      | Deleted => Ok tt
      | DeleteFails detail => Raise (Propagated (ServiceError detail))
      end, [EEntityEdge_get_by_uuid uuid; EEntityEdge_delete edge])) /\
  (* delete_episodic_node *)
  (forall status detail,
     fst (delete_episodic_node graph uuid h) = Raise (HTTPException status detail) <->
     status = 404%Z /\ episode_lookup = Raises (NodeNotFoundError detail)) /\
  (forall e, episode_lookup = Raises e ->
     calls is_delete (snd (delete_episodic_node graph uuid h)) = 0 /\
     ((forall message, e <> NodeNotFoundError message) ->
      fst (delete_episodic_node graph uuid h) = Raise (Propagated e))) /\
  (forall episode, episode_lookup = Returns episode ->
     delete_episodic_node graph uuid h =
     (match episode_delete episode with
      | Deleted => Ok tt
      | DeleteFails detail => Raise (Propagated (ServiceError detail))
      end, [EEpisodicNode_get_by_uuid uuid; EEpisodicNode_delete episode])).
Proof.
  intros edge_lookup edge_delete episode_lookup episode_delete.
  subst edge_lookup edge_delete episode_lookup episode_delete.
  rewrite get_entity_edge_run, delete_entity_edge_run, delete_episodic_node_run.
  split_and!.
  - intros status detail.
    destruct (EntityEdge_get_by_uuid graph h uuid) as [edge|[]]; cbn [fst];
      (split; [intros ?; by simplify_eq|intros [-> ?]; by simplify_eq]).
  - intros e -> Hne. destruct e; try done. by destruct (Hne message).
  - by intros edge ->.
  - intros status detail.
    destruct (EntityEdge_get_by_uuid graph h uuid) as [edge|[]]; cbn [fst];
      [destruct (EntityEdge_delete graph _ edge)|..];
      (split; [intros ?; by simplify_eq|intros [-> ?]; by simplify_eq]).
  - intros e ->. split; [by destruct e|].
    intros Hne. destruct e; try done. by destruct (Hne message).
  - by intros edge ->.
  - intros status detail.
    destruct (EpisodicNode_get_by_uuid graph h uuid) as [episode|[]]; cbn [fst];
      [destruct (EpisodicNode_delete graph _ episode)|..];
      (split; [intros ?; by simplify_eq|intros [-> ?]; by simplify_eq]).
  - intros e ->. split; [by destruct e|].
    intros Hne. destruct e; try done. by destruct (Hne message).
  - by intros episode ->.
Qed.

End ServerFacts.

(** ** The properties on the stub collaborators *)

Lemma sample_llm_answers (h : list (Event (Vec:=list Z))) p :
  exists resp, generate_response sample_services h p = Returns resp.
Proof. destruct p as [[|l [|r [|x rest]]]|s]; by eexists. Qed.

(** On ["a".."e"] the code merges (a,c) and (b,d), not (a,d) and (b,c). *)
Lemma first_round_pairs_a_d_b_c_refuted :
  let cluster := map entity ["a"; "b"; "c"; "d"; "e"] in
  let round := reduction_round sample_services (map EntityNode.summary cluster) [] in
  round = (Ok ["(a+c)"; "(b+d)"; "e"],
           [merge_event ("a", "c"); merge_event ("b", "d")]) /\
  snd round <> [merge_event ("a", "d"); merge_event ("b", "c")] /\
  take 2 (snd (build_community sample_services cluster []))
    <> [merge_event ("a", "d"); merge_event ("b", "c")].
Proof. vm_compute. split; [done|]. split; discriminate. Qed.

Lemma reduction_round_pairs_halves_witness :
  let run := reduction_round sample_services
               (["a"; "b"; "c"; "d"] ++ carried_list (Some "e")) [] in
  Nat.even (length ["a"; "b"; "c"; "d"]) = true /\
  length (snd run) = length ["a"; "b"; "c"; "d"] / 2 /\
  snd run = [merge_event ("a", "c"); merge_event ("b", "d")] /\
  fst run = Ok ["(a+c)"; "(b+d)"; "e"].
Proof.
  intros run.
  destruct (reduction_round_pairs_halves sample_services
              ["a"; "b"; "c"; "d"] (Some "e") [] eq_refl)
    as (Hlen & Hpairs & _ & Hreturns).
  fold run in Hlen, Hpairs, Hreturns.
  split; [reflexivity|]. split; [exact Hlen|]. split.
  - destruct (Hpairs 0) as (l0 & r0 & Hl0 & Hr0 & Hev0); [compute; lia|].
    destruct (Hpairs 1) as (l1 & r1 & Hl1 & Hr1 & Hev1); [compute; lia|].
    injection Hl0 as <-. injection Hr0 as <-.
    injection Hl1 as <-. injection Hr1 as <-.
    destruct (snd run) as [|ev0 [|ev1 [|ev2 evs]]]; try discriminate Hlen.
    injection Hev0 as ->. injection Hev1 as ->. reflexivity.
  - destruct Hreturns as (merged & Hfst & Hmerged & Hidx).
    { intros i left right _ _ _. apply sample_llm_answers. }
    destruct (Hidx 0 "a" "c") as (resp0 & Hresp0 & Hm0);
      [compute; lia|reflexivity|reflexivity|].
    destruct (Hidx 1 "b" "d") as (resp1 & Hresp1 & Hm1);
      [compute; lia|reflexivity|reflexivity|].
    injection Hresp0 as <-. injection Hresp1 as <-.
    destruct merged as [|m0 [|m1 [|m2 ms]]]; try discriminate Hmerged.
    injection Hm0 as ->. injection Hm1 as ->.
    rewrite Hfst. reflexivity.
Defined.

Lemma build_community_merge_count_witness :
  map entity ["a"; "b"; "c"; "d"; "e"] <> [] /\
  exists community,
    fst (build_community sample_services (map entity ["a"; "b"; "c"; "d"; "e"]) [])
    = Ok community /\
    calls is_summarize_pair
      (snd (build_community sample_services (map entity ["a"; "b"; "c"; "d"; "e"]) []))
    = 4.
Proof.
  split; [discriminate|].
  apply (build_community_merge_count sample_services
           (map entity ["a"; "b"; "c"; "d"; "e"]) []); [discriminate|].
  apply sample_llm_answers.
Defined.

(** With a clustering call that fails, the projection is built and never
    destroyed. *)
Lemma failed_clustering_leaves_projection :
  build_community_projection failing_clustering_services []
  = (Ok (VStr "communities"), [EQuery QProject]) /\
  build_communities failing_clustering_services []
  = (Raise (ServiceError "leiden"), [EQuery QProject; EQuery QLeidenStream]) /\
  calls is_destroy_projection (snd (build_communities failing_clustering_services [])) <> 1.
Proof. vm_compute. split; [done|]. split; [done|discriminate]. Qed.

Lemma build_communities_teardown_witness :
  build_community_projection sample_services []
  = (Ok (VStr "communities"), [EQuery QProject]) /\
  calls is_destroy_projection (snd (build_communities sample_services [])) = 1.
Proof.
  split; [reflexivity|].
  pose proof (build_communities_teardown sample_services [] (VStr "communities")
                [EQuery QProject] eq_refl) as H.
  cbv zeta in H.
  destruct (fst (cluster_and_build sample_services (VStr "communities")
                   ([] ++ [EQuery QProject]))) eqn:Hstage.
  - exact (proj1 (proj2 H)).
  - exfalso. vm_compute in Hstage. discriminate.
  - exfalso. vm_compute in Hstage. discriminate.
Defined.

Lemma determine_entity_community_first_mode_witness :
  let records : list Record :=
    [ {[ "uuid" := VStr "A" ]}; {[ "uuid" := VStr "B" ]};
      {[ "uuid" := VStr "B" ]}; {[ "uuid" := VStr "A" ]} ] in
  let communities := map (get_community_node_from_record sample_services) records in
  execute_query sample_services [] (QEntityCommunity "x") = Returns [] /\
  execute_query sample_services [EQuery (QEntityCommunity "x")]
                (QNeighbourCommunities "x") = Returns records /\
  records <> [] /\
  exists before community after,
    communities = before ++ community :: after /\
    fst (determine_entity_community sample_services (entity "x") [])
    = Ok (Some community, true) /\
    (forall c, c ∈ before ->
       votes communities (CommunityNode.uuid c)
       < votes communities (CommunityNode.uuid community)) /\
    (forall c, c ∈ after ->
       votes communities (CommunityNode.uuid c)
       <= votes communities (CommunityNode.uuid community)).
Proof.
  intros records communities.
  split; [reflexivity|]. split; [reflexivity|]. split; [discriminate|].
  apply (determine_entity_community_first_mode sample_services (entity "x") [] records);
    [reflexivity|reflexivity|discriminate].
Defined.

Lemma determine_entity_community_never_none_true_witness :
  let community := CommunityNode.mk "A" "n" "g" ["Community"] 0 "s" (@None (list Z)) in
  fst (determine_entity_community sample_services (entity "x") [])
  = Ok (Some community, true) /\
  exists c records,
    Some community = Some c /\
    execute_query sample_services [EQuery (QEntityCommunity "x")]
                  (QNeighbourCommunities "x") = Returns records /\
    c ∈ map (get_community_node_from_record sample_services) records.
Proof.
  intros community.
  assert (Hrun : fst (determine_entity_community sample_services (entity "x") [])
                 = Ok (Some community, true)) by (by vm_compute).
  split; [exact Hrun|].
  destruct (determine_entity_community_never_none_true sample_services (entity "x") []
              (Some community) true Hrun) as [_ Hnew].
  destruct (Hnew eq_refl) as (c & records & Hc & Hquery & Hin & _).
  by exists c, records.
Defined.

Lemma update_community_new_member_witness :
  let community := CommunityNode.mk "A" "n" "g" ["Community"] 0 "s" (@None (list Z)) in
  let lookups := [EQuery (QEntityCommunity "x"); EQuery (QNeighbourCommunities "x")] in
  determine_entity_community sample_services (entity "x") []
  = (Ok (Some community, true), lookups) /\
  exists ev, update_community sample_services (entity "x") [] = (Ok tt, ev).
Proof.
  intros community lookups. split; [by vm_compute|].
  apply (update_community_new_member sample_services (entity "x") [] community lookups);
    [by vm_compute|apply sample_llm_answers|by eexists|done|done].
Defined.

Lemma update_community_unassigned_noop_witness :
  let lookups : list (Event (Vec:=list Z)) :=
    [EQuery (QEntityCommunity "y"); EQuery (QNeighbourCommunities "y")] in
  determine_entity_community sample_services (entity "y") []
  = (Ok (None, false), lookups) /\
  update_community sample_services (entity "y") [] = (Ok tt, lookups).
Proof.
  intros lookups. split; [by vm_compute|].
  apply (update_community_unassigned_noop sample_services (entity "y") [] false lookups).
  by vm_compute.
Defined.

Lemma not_found_becomes_404_witness :
  EntityEdge_get_by_uuid empty_graph [] "e1" = Raises (EdgeNotFoundError "e1") /\
  fst (get_entity_edge empty_graph "e1" []) = Raise (HTTPException 404 "e1") /\
  calls is_delete (snd (delete_entity_edge empty_graph "e1" [])) = 0 /\
  EntityEdge_get_by_uuid small_graph [] "e1" = Returns "e1" /\
  delete_entity_edge small_graph "e1" []
  = (Ok tt, [EEntityEdge_get_by_uuid "e1"; EEntityEdge_delete "e1"]).
Proof.
  pose proof (not_found_becomes_404 empty_graph "e1" []) as H. cbv zeta in H.
  destruct H as (Hget & _ & _ & _ & Hdel & _).
  pose proof (not_found_becomes_404 small_graph "e1" []) as H. cbv zeta in H.
  destruct H as (_ & _ & _ & _ & _ & Hfound & _).
  split; [reflexivity|]. split; [|split; [|split; [reflexivity|]]].
  - apply Hget. by split.
  - exact (proj1 (Hdel _ eq_refl)).
  - exact (Hfound "e1" eq_refl).
Defined.

(** * Further properties *)

(** ** Building one community *)

Section ComputationInversion.
Context {Ev E : Type}.

Lemma bind_ok_inv {A B} (m : comp (Ev:=Ev) (E:=E) A) (k : A -> comp B) h b :
  fst (bind m k h) = Ok b ->
  exists a ev, m h = (Ok a, ev) /\ fst (k a (h ++ ev)) = Ok b /\
               snd (bind m k h) = ev ++ snd (k a (h ++ ev)).
Proof.
  unfold bind. destruct (m h) as [[a|e|] ev]; [|done..].
  destruct (k a (h ++ ev)) as [r ev'] eqn:Hk. cbn [fst snd].
  intros ->. exists a, ev. by rewrite Hk.
Qed.

(** The results of a wave that succeeded, task by task. *)
Lemma gather_ok_inv {A} (tasks : list (comp (Ev:=Ev) (E:=E) A)) h results :
  fst (gather tasks h) = Ok results ->
  Forall2 (fun task result => exists h', fst (task h') = Ok result) tasks results.
Proof.
  revert h results. induction tasks as [|task tasks IH]; intros h results.
  - simpl. intros [= <-]. constructor.
  - simpl. destruct (task h) as [r ev] eqn:Htask.
    destruct (gather tasks (h ++ ev)) as [rs ev'] eqn:Hrest. cbn [fst].
    destruct r as [a|e|]; [|done..]. destruct rs as [l|e|]; [|done..].
    simpl. intros [= <-]. constructor.
    + exists h. by rewrite Htask.
    + apply (IH (h ++ ev)). by rewrite Hrest.
Qed.

End ComputationInversion.

Section BuildCommunityFacts.
Context {Vec : Type}.
Variable svc : Services (Vec:=Vec).
Implicit Types h : list (Event (Vec:=Vec)).

Lemma reduction_round_emits (P : Event (Vec:=Vec) -> Prop) summaries :
  (forall pair, P (merge_event pair)) -> emits P (reduction_round svc summaries).
Proof.
  intros HP. unfold reduction_round. apply emits_bind.
  - destruct (_ =? 1); [|apply emits_ret].
    destruct (pop summaries) as [[rest last]|]; [apply emits_ret|apply emits_raise].
  - intros [[work length] odd_one_out]. apply emits_bind; [|intros; apply emits_ret].
    apply emits_gather. intros task (pair & -> & _)%list_elem_of_fmap.
    intros h ev. rewrite summarize_pair_run. cbn [snd].
    intros ->%list_elem_of_singleton. apply HP.
Qed.

Lemma reduction_loop_emits (P : Event (Vec:=Vec) -> Prop) fuel summaries :
  (forall pair, P (merge_event pair)) -> emits P (reduction_loop svc fuel summaries).
Proof.
  intros HP. revert summaries. induction fuel as [|fuel IH]; intros summaries; simpl.
  - destruct (1 <? length summaries); [apply emits_diverge|apply emits_ret].
  - destruct (1 <? length summaries); [|apply emits_ret].
    apply emits_bind; [by apply reduction_round_emits|apply IH].
Qed.

(** The run of [build_community] on a non-empty cluster, by the outcome of
    the reduction loop. *)
Lemma build_community_cases first rest h :
  let cluster := first :: rest in
  let summaries := map EntityNode.summary cluster in
  let loop := reduction_loop svc (length summaries) summaries h in
  (exists summary, fst loop = Ok [summary] /\
     build_community svc cluster h =
     match generate_response svc (h ++ snd loop) (summary_description_prompt summary) with
     | Returns resp =>
         let created_at := datetime_now svc (h ++ snd loop
                             ++ [ELLM (summary_description_prompt summary)]) in
         let node := CommunityNode.mk
                       (uuid4 svc (h ++ snd loop
                          ++ [ELLM (summary_description_prompt summary); ENow]))
                       (dict_get resp "description" "") (EntityNode.group_id first)
                       ["Community"] created_at summary None in
         (Ok (node, build_community_edges cluster node created_at),
          snd loop ++ [ELLM (summary_description_prompt summary); ENow; EUuid])
     | Raises e => (Raise e, snd loop ++ [ELLM (summary_description_prompt summary)])
     end) \/
  (exists e, fst loop = Raise e /\ build_community svc cluster h = (Raise e, snd loop)).
Proof.
  intros cluster summaries loop.
  assert (Hne : summaries <> []) by done.
  destruct (reduction_loop_spec svc (length summaries) summaries h Hne (le_n _))
    as (Hnd & Hok & _).
  fold loop in Hnd, Hok.
  destruct loop as [[final|e|] ev] eqn:Hloop; cbn [fst snd] in *.
  - left. destruct (Hok final eq_refl) as [Hone _].
    destruct final as [|summary [|]]; try done.
    exists summary. split; [done|].
    exact (build_community_after_loop svc first rest summary ev h Hloop).
  - right. exists e. split; [done|].
    unfold build_community. fold cluster summaries.
    by erewrite bind_raise by exact Hloop.
  - done.
Qed.

Lemma build_community_ok_inv cluster h node edges :
  fst (build_community svc cluster h) = Ok (node, edges) ->
  exists first rest,
    cluster = first :: rest /\
    CommunityNode.group_id node = EntityNode.group_id first /\
    CommunityNode.labels node = ["Community"] /\
    CommunityNode.name_embedding node = None /\
    edges = build_community_edges cluster node (CommunityNode.created_at node) /\
    length edges = length cluster.
Proof.
  destruct cluster as [|first rest]; [done|].
  intros Hok. exists first, rest. split; [done|].
  destruct (build_community_cases first rest h)
    as [(summary & _ & Hrun)|(e & _ & Hrun)]; rewrite Hrun in Hok; [|done].
  destruct (generate_response svc _ _) as [resp|e]; [|done].
  cbv zeta in Hok. cbn [fst] in Hok. injection Hok as <- <-.
  cbn [CommunityNode.group_id CommunityNode.labels CommunityNode.name_embedding
       CommunityNode.created_at].
  repeat (split; [done|]). unfold build_community_edges. cbn [map length]. f_equal. apply length_map.
Qed.

Lemma reduction_round_raise_calls summaries h e :
  fst (reduction_round svc summaries h) = Raise e ->
  snd (reduction_round svc summaries h) <> [].
Proof.
  destruct (split_carried summaries) as (work & carried & -> & Heven).
  rewrite (reduction_round_run svc work carried h Heven). cbn [fst snd].
  rewrite gather_merges_events.
  destruct (zip _ _) as [|pair pairs]; [done|]. by intros _.
Qed.

Lemma reduction_loop_raise_calls fuel summaries h e :
  fst (reduction_loop svc fuel summaries h) = Raise e ->
  snd (reduction_loop svc fuel summaries h) <> [].
Proof.
  revert summaries h. induction fuel as [|fuel IH]; intros summaries h.
  - simpl. by destruct (1 <? length summaries).
  - destruct (decide (length summaries <= 1)) as [Hshort|Hlong].
    { by rewrite reduction_loop_done. }
    rewrite reduction_loop_step by lia.
    destruct (reduction_round svc summaries h) as [[new_summaries|e'|] ev] eqn:Hround.
    + erewrite bind_ok by exact Hround. cbn [fst snd]. intros Hraise Hnil.
      apply app_eq_nil in Hnil as [_ Hnil]. by apply (IH _ _ Hraise).
    + erewrite bind_raise by exact Hround. cbn [fst snd]. intros _.
      pose proof (reduction_round_raise_calls summaries h e') as Hcalls.
      rewrite Hround in Hcalls. by apply Hcalls.
    + by erewrite bind_diverge by exact Hround.
Qed.

(** X1: on an empty cluster [build_community] raises [IndexError] (from
    [summaries[0]]) before any call is issued, and the empty cluster is the
    only one for which it issues no call at all. *)
Theorem build_community_empty_cluster cluster h :
  (cluster = [] -> build_community svc cluster h = (Raise IndexError, [])) /\
  (snd (build_community svc cluster h) = [] <-> cluster = []).
Proof.
  split; [by intros ->|]. split; [|by intros ->].
  intros Hnil. destruct cluster as [|first rest]; [done|]. exfalso.
  destruct (build_community_cases first rest h)
    as [(summary & _ & Hrun)|(e & Hloop & Hrun)]; rewrite Hrun in Hnil.
  - destruct (generate_response svc _ _); cbv zeta in Hnil; cbn [snd] in Hnil;
      by apply app_eq_nil in Hnil as [_ ?].
  - cbn [snd] in Hnil. by apply (reduction_loop_raise_calls _ _ _ _ Hloop).
Qed.

(** X2: the community returned for a cluster takes its [group_id] from the
    first entity, carries the label Community and no embedding, and comes
    with one edge per entity of the cluster, in cluster order, each from the
    community to the entity, with the community's timestamp and group. *)
Theorem build_community_result cluster h node edges :
  fst (build_community svc cluster h) = Ok (node, edges) ->
  exists first rest,
    cluster = first :: rest /\
    CommunityNode.group_id node = EntityNode.group_id first /\
    CommunityNode.labels node = ["Community"] /\
    CommunityNode.name_embedding node = None /\
    length edges = length cluster /\
    forall i entity, cluster !! i = Some entity ->
      edges !! i = Some (CommunityEdge.mk (CommunityNode.uuid node) (EntityNode.uuid entity)
                           (CommunityNode.created_at node) (CommunityNode.group_id node)).
Proof.
  intros Hok.
  destruct (build_community_ok_inv cluster h node edges Hok)
    as (first & rest & Hcluster & Hgroup & Hlabels & Hemb & Hedges & Hlen).
  exists first, rest. repeat (split; [done|]).
  intros i entity Hi. rewrite Hedges. unfold build_community_edges.
  by rewrite list_lookup_fmap, Hi.
Qed.

(** X3: [build_community] only calls the language model, the clock and the
    uuid source, never the store or the embedder.  Its calls are the pair
    merges, followed by the naming of the community; the clock and the node's
    uuid are drawn only when the naming succeeded, and then the naming was
    asked for the summary the community carries. *)
Theorem build_community_calls cluster h :
  let run := build_community svc cluster h in
  exists merges rest,
    snd run = merges ++ rest /\
    (forall ev, ev ∈ merges -> is_summarize_pair ev = true) /\
    match fst run with
    | Ok (node, _) =>
        rest = [ELLM (summary_description_prompt (CommunityNode.summary node)); ENow; EUuid]
    | _ => rest = [] \/ exists summary, rest = [ELLM (summary_description_prompt summary)]
    end.
Proof.
  intros run. subst run. destruct cluster as [|first rest].
  - exists [], []. split; [done|]. split; [by intros ev ?%elem_of_nil|by left].
  - assert (Hmerges : forall ev,
      ev ∈ snd (reduction_loop svc (length (map EntityNode.summary (first :: rest)))
                  (map EntityNode.summary (first :: rest)) h) ->
      is_summarize_pair ev = true).
    { intros ev. by apply (reduction_loop_emits (fun ev => is_summarize_pair ev = true)). }
    destruct (build_community_cases first rest h)
      as [(summary & _ & ->)|(e & _ & ->)].
    + destruct (generate_response svc _ _) as [resp|e]; cbv zeta; cbn [fst snd].
      * eexists _, _. split; [done|]. split; [exact Hmerges|done].
      * eexists _, _. split; [done|]. split; [exact Hmerges|]. right. by eexists.
    + cbn [fst snd]. eexists _, []. rewrite app_nil_r.
      split; [done|]. split; [exact Hmerges|by left].
Qed.

(** X4: a response of the language model without the expected field is not
    an error: [summarize_pair] and [generate_summary_description] then return
    the empty string, after their single call. *)
Theorem empty_result_is_empty_string h resp :
  (forall pair,
     generate_response svc h (summarize_pair_prompt [fst pair; snd pair]) = Returns resp ->
     resp !! "summary" = None ->
     summarize_pair svc pair h = (Ok "", [merge_event pair])) /\
  (forall summary,
     generate_response svc h (summary_description_prompt summary) = Returns resp ->
     resp !! "description" = None ->
     generate_summary_description svc summary h
     = (Ok "", [ELLM (summary_description_prompt summary)])).
Proof.
  split.
  - intros pair Hresp Hnone. rewrite summarize_pair_run, Hresp.
    unfold dict_get. by rewrite Hnone.
  - intros summary Hresp Hnone. rewrite generate_summary_description_run, Hresp.
    unfold dict_get. by rewrite Hnone.
Qed.

End BuildCommunityFacts.

(** ** Clustering *)

Section ClusteringFacts.
Context {Vec : Type}.
Variable svc : Services (Vec:=Vec).
Implicit Types h : list (Event (Vec:=Vec)).
Implicit Types records : list Record.
Implicit Types community_map : list (Value * list Value).

(** The body of the grouping loop. *)
Local Abbreviation group_body :=
  (fun (community_map : list (Value * list Value)) (record : Record) =>
     communityId <- getitem (Vec:=Vec) record "communityId" ;;
     entity_uuid <- getitem (Vec:=Vec) record "entity_uuid" ;;
     ret (defaultdict_update [] (fun l => l ++ [entity_uuid]) community_map communityId)).

Lemma group_body_ok community_map (record : Record) h :
  is_Some (record !! "communityId") -> is_Some (record !! "entity_uuid") ->
  group_body community_map record h = (Ok (group_step community_map record), []).
Proof.
  intros [communityId Hc] [entity_uuid Hu].
  unfold group_step, getitem, bind, ret. by rewrite Hc, Hu.
Qed.


Lemma grouping_ok records community_map h :
  (forall record, record ∈ records ->
     is_Some (record !! "communityId") /\ is_Some (record !! "entity_uuid")) ->
  for_each group_body community_map records h
  = (Ok (foldl group_step community_map records), []).
Proof.
  revert community_map h.
  induction records as [|record records IH]; intros community_map h Hall; [done|].
  destruct (Hall record (list_elem_of_here _ _)) as [Hc Hu].
  cbn [for_each foldl]. erewrite bind_ok by (by apply group_body_ok).
  rewrite IH by (intros r Hr; apply Hall; by apply list_elem_of_further).
  done.
Qed.


Lemma members_snoc records (record : Record) communityId :
  members (records ++ [record]) communityId =
  members records communityId ++
  (if decide (record !! "communityId" = Some communityId)
   then match record !! "entity_uuid" with Some u => [u] | None => [] end
   else []).
Proof.
  unfold members. rewrite omap_app. f_equal. simpl.
  destruct (decide (record !! "communityId" = Some communityId)); [|done].
  by destruct (record !! "entity_uuid").
Qed.

Lemma grouping_snoc records (record : Record) :
  foldl group_step [] (records ++ [record]) = group_step (foldl group_step [] records) record.
Proof. by rewrite foldl_app. Qed.

(** The dictionary built by the loop holds, for every cluster id seen, its
    members in stream order. *)
Lemma grouping_lookup records communityId :
  (forall record, record ∈ records ->
     is_Some (record !! "communityId") /\ is_Some (record !! "entity_uuid")) ->
  defaultdict_lookup (foldl group_step [] records) communityId =
  match members records communityId with
  | [] => None
  | uuids => Some uuids
  end.
Proof.
  induction records as [|record records IH] using rev_ind; [done|].
  intros Hall.
  assert (Hrecords : forall r, r ∈ records ->
            is_Some (r !! "communityId") /\ is_Some (r !! "entity_uuid")).
  { intros r Hr. apply Hall. apply elem_of_app. by left. }
  destruct (Hall record) as [[cid Hc] [uuid Hu]].
  { apply elem_of_app. right. apply list_elem_of_here. }
  assert (Hstep : group_step (foldl group_step [] records) record =
            defaultdict_update [] (fun l => l ++ [uuid]) (foldl group_step [] records) cid).
  { unfold group_step at 1. by rewrite Hc, Hu. }
  rewrite grouping_snoc, members_snoc, Hstep, Hc, Hu.
  rewrite defaultdict_lookup_update.
  destruct (decide (communityId = cid)) as [->|Hne].
  - rewrite decide_True by done. rewrite (IH Hrecords).
    by destruct (members records cid).
  - rewrite decide_False by congruence. rewrite app_nil_r. by apply IH.
Qed.

Lemma grouping_NoDup records : NoDup (map fst (foldl group_step [] records)).
Proof.
  induction records as [|record records IH] using rev_ind; [apply NoDup_nil_2|].
  rewrite grouping_snoc. unfold group_step at 1.
  destruct (record !! "communityId"); [|done].
  destruct (record !! "entity_uuid"); [|done].
  by apply defaultdict_update_NoDup.
Qed.

Lemma members_nonempty records communityId :
  (forall record, record ∈ records -> is_Some (record !! "entity_uuid")) ->
  members records communityId <> [] <->
  exists record, record ∈ records /\ record !! "communityId" = Some communityId.
Proof.
  intros Hall. unfold members. induction records as [|record records IH]; simpl.
  - split; [done|]. by intros (r & ?%elem_of_nil & _).
  - assert (Hrest : forall r, r ∈ records -> is_Some (r !! "entity_uuid")).
    { intros r Hr. apply Hall. by apply list_elem_of_further. }
    destruct (Hall record (list_elem_of_here _ _)) as [uuid Hu].
    destruct (decide (record !! "communityId" = Some communityId)) as [Hc|Hc].
    + rewrite Hu. simpl. split; [|done]. intros _. exists record.
      split; [apply list_elem_of_here|done].
    + rewrite (IH Hrest). split.
      * intros (r & Hr & Hrc). exists r. split; [by apply list_elem_of_further|done].
      * intros (r & [->|Hr]%elem_of_cons & Hrc); [done|]. by exists r.
Qed.

(** Every record falls in the member list of exactly one of the distinct
    cluster ids. *)
Lemma members_partition records (cids : list Value) :
  NoDup cids ->
  (forall record, record ∈ records ->
     is_Some (record !! "entity_uuid") /\
     exists cid, cid ∈ cids /\ record !! "communityId" = Some cid) ->
  sum_list (map (fun cid => length (members records cid)) cids) = length records.
Proof.
  intros Hnd. induction records as [|record records IH]; intros Hall.
  - clear Hall Hnd. simpl. induction cids as [|cid cids IHcids]; [done|]. exact IHcids.
  - destruct (Hall record (list_elem_of_here _ _)) as ([uuid Hu] & cid0 & Hcid0 & Hc).
    assert (Hrest : sum_list (map (fun cid => length (members records cid)) cids)
                    = length records).
    { apply IH. intros r Hr. apply Hall. by apply list_elem_of_further. }
    change (length (record :: records)) with (S (length records)).
    rewrite <- Hrest. clear IH Hrest Hall.
    assert (Hone : forall cid,
      length (members (record :: records) cid) =
      (if decide (cid = cid0) then 1 else 0) + length (members records cid)).
    { intros cid. unfold members. simpl. rewrite Hc, Hu.
      destruct (decide (Some cid0 = Some cid)) as [[= ->]|Hne].
      - by rewrite decide_True.
      - rewrite decide_False by congruence. done. }
    revert Hcid0 Hnd. clear Hc Hu.
    induction cids as [|cid cids IHcids]; intros Hcid0 Hnd.
    { by apply elem_of_nil in Hcid0. }
    cbn [map]. unfold sum_list in *. cbn [sum_list_with]. unfold id at 1 3.
    rewrite Hone. apply NoDup_cons in Hnd as [Hnotin Hnd].
    destruct (decide (cid = cid0)) as [->|Hne].
    + assert (Hsame : map (fun cid => length (members (record :: records) cid)) cids
                      = map (fun cid => length (members records cid)) cids).
      { apply map_ext_in. intros cid Hin%list_elem_of_In. rewrite Hone.
        rewrite decide_False; [done|]. by intros ->. }
      rewrite Hsame. lia.
    + apply elem_of_cons in Hcid0 as [?|Hcid0]; [congruence|].
      rewrite (IHcids Hcid0 Hnd). lia.
Qed.

Lemma gather_lookups_events (clusters : list (list Value)) h :
  snd (gather (map (fun cluster =>
                      call (EGetByUuids cluster) (fun h => get_by_uuids svc h cluster))
                   clusters) h)
  = map (fun cluster => EGetByUuids (Vec:=Vec) cluster) clusters.
Proof.
  revert h. induction clusters as [|cluster clusters IH]; intros h; [done|].
  rewrite map_cons, gather_cons. unfold call at 1 3. cbn [fst snd]. by rewrite IH.
Qed.

(** X5: when every streamed record has both fields, [get_community_clusters]
    issues, after the cluster stream, one entity lookup per distinct cluster
    id, for exactly the uuids streamed with that id, in stream order; every
    streamed record falls in exactly one of the lookups. *)
Theorem get_community_clusters_groups projection h records :
  execute_query svc h QLeidenStream = Returns records ->
  (forall record, record ∈ records ->
     is_Some (record !! "communityId") /\ is_Some (record !! "entity_uuid")) ->
  exists ids,
    NoDup ids /\
    (forall id, id ∈ ids <->
       exists record, record ∈ records /\ record !! "communityId" = Some id) /\
    snd (get_community_clusters svc projection h)
    = EQuery QLeidenStream :: map (fun id => EGetByUuids (members records id)) ids /\
    sum_list (map (fun id => length (members records id)) ids) = length records.
Proof.
  intros Hstream Hall.
  set (community_map := foldl group_step [] records).
  assert (Huuid : forall record, record ∈ records -> is_Some (record !! "entity_uuid")).
  { intros r Hr. by apply Hall. }
  assert (Hentry : forall id uuids, (id, uuids) ∈ community_map ->
            uuids = members records id /\ uuids <> []).
  { intros id uuids Hin.
    apply (defaultdict_lookup_elem _ _ _ (grouping_NoDup records)) in Hin.
    unfold community_map in Hin. rewrite (grouping_lookup records id Hall) in Hin.
    destruct (members records id); [done|]. by injection Hin as <-. }
  assert (Hkeys : forall id, id ∈ map fst community_map <->
            exists record, record ∈ records /\ record !! "communityId" = Some id).
  { intros id. rewrite <- (members_nonempty records id Huuid). split.
    - intros ([k uuids] & -> & Hin)%list_elem_of_fmap.
      cbn [fst]. destruct (Hentry _ _ Hin) as [Heq Hne]. by rewrite <- Heq.
    - intros Hne.
      destruct (decide (id ∈ map fst community_map)) as [|Hnotin]; [done|].
      apply defaultdict_lookup_None in Hnotin. unfold community_map in Hnotin.
      rewrite (grouping_lookup records id Hall) in Hnotin.
      by destruct (members records id). }
  exists (map fst community_map). split; [apply grouping_NoDup|]. split; [exact Hkeys|].
  split.
  - unfold get_community_clusters, driver_execute_query.
    unfold bind at 1. unfold call at 1. rewrite Hstream.
    erewrite bind_ok by (by apply grouping_ok).
    cbn [fst snd app]. rewrite app_nil_r, gather_lookups_events. fold community_map.
    f_equal. rewrite !map_map. apply map_ext_in.
    intros [id uuids] Hin%list_elem_of_In. cbn [fst snd].
    by destruct (Hentry _ _ Hin) as [-> _].
  - apply members_partition; [apply grouping_NoDup|].
    intros record Hr. split; [by apply Huuid|].
    destruct (Hall record Hr) as [[id Hid] _]. exists id. split; [|done].
    apply Hkeys. by exists record.
Qed.


End ClusteringFacts.

(** ** Full rebuild *)

Section RebuildFacts.
Context {Vec : Type}.
Variable svc : Services (Vec:=Vec).
Implicit Types h : list (Event (Vec:=Vec)).

Lemma build_community_projection_run h :
  build_community_projection svc h =
  (match execute_query svc h QProject with
   | Returns [] => Raise IndexError
   | Returns (first :: _) =>
       match first !! "graph" with
       | Some graph => Ok graph
       | None => Raise (KeyError "graph")
       end
   | Raises e => Raise e
   end, [EQuery QProject]).
Proof.
  unfold build_community_projection, driver_execute_query, getitem, index0,
    bind, call, ret, raise.
  destruct (execute_query svc h QProject) as [[|first rest]|e]; try done.
  by destruct (first !! "graph").
Qed.

(** X7: when the projection query fails, returns no record, or returns a
    first record without a [graph] field, [build_communities] raises that
    failure ([IndexError], [KeyError]) right after the projection query: no
    clustering, no summarization and no teardown is issued. *)
Theorem build_communities_without_projection h :
  (forall e, execute_query svc h QProject = Raises e ->
     build_communities svc h = (Raise e, [EQuery QProject])) /\
  (execute_query svc h QProject = Returns [] ->
     build_communities svc h = (Raise IndexError, [EQuery QProject])) /\
  (forall (first : Record) rest,
     execute_query svc h QProject = Returns (first :: rest) ->
     first !! "graph" = None ->
     build_communities svc h = (Raise (KeyError "graph"), [EQuery QProject])).
Proof.
  pose proof (build_community_projection_run h) as Hrun.
  split_and!.
  - intros e He. rewrite He in Hrun.
    unfold build_communities. by erewrite bind_raise by exact Hrun.
  - intros He. rewrite He in Hrun.
    unfold build_communities. by erewrite bind_raise by exact Hrun.
  - intros first rest He Hgraph. rewrite He, Hgraph in Hrun.
    unfold build_communities. by erewrite bind_raise by exact Hrun.
Qed.

Lemma communities_of_clusters (clusters : list (list EntityNode.t))
    (communities : list (CommunityNode.t Vec * list CommunityEdge.t)) :
  Forall2 (fun cluster community =>
             exists h', fst (build_community svc cluster h') = Ok community)
          clusters communities ->
  length (map fst communities) = length clusters /\
  length (concat (map snd communities)) = sum_list (map length clusters) /\
  Forall2 (fun cluster node =>
             exists first rest, cluster = first :: rest /\
               CommunityNode.group_id node = EntityNode.group_id first)
          clusters (map fst communities).
Proof.
  induction 1 as [|cluster [node edges] clusters communities [h' Hok] _ IH].
  - split; [done|]. split; [done|]. constructor.
  - destruct IH as (Hnodes & Hedges & Hgroups).
    destruct (build_community_ok_inv svc cluster h' node edges Hok)
      as (first & rest & Hcluster & Hgroup & _ & _ & _ & Hlen).
    cbn [map concat fst snd length]. split; [by rewrite Hnodes|]. split.
    + rewrite length_app, Hedges, Hlen. done.
    + constructor; [|done]. by exists first, rest.
Qed.

(** X8: a full rebuild that succeeds returns one community node per cluster,
    in cluster order, each with the [group_id] of the first entity of its
    cluster, and as many edges as there are entities in all clusters. *)
Theorem build_communities_result h nodes edges :
  fst (build_communities svc h) = Ok (nodes, edges) ->
  exists projection ev1 clusters ev2,
    build_community_projection svc h = (Ok projection, ev1) /\
    get_community_clusters svc projection (h ++ ev1) = (Ok clusters, ev2) /\
    length nodes = length clusters /\
    length edges = sum_list (map length clusters) /\
    Forall2 (fun cluster node =>
               exists first rest, cluster = first :: rest /\
                 CommunityNode.group_id node = EntityNode.group_id first)
            clusters nodes.
Proof.
  unfold build_communities. intros Hok.
  apply bind_ok_inv in Hok as (projection & ev1 & Hproj & Hok & _).
  apply bind_ok_inv in Hok as (clusters & ev2 & Hclusters & Hok & _).
  apply bind_ok_inv in Hok as (communities & ev3 & Hgather & Hok & _).
  apply bind_ok_inv in Hok as ([] & ev4 & _ & Hok & _).
  unfold ret in Hok. cbn [fst] in Hok. injection Hok as <- <-.
  exists projection, ev1, clusters, ev2. split; [done|]. split; [done|].
  apply communities_of_clusters.
  assert (Hfst : fst (gather (map (build_community svc) clusters) ((h ++ ev1) ++ ev2))
                 = Ok communities) by (by rewrite Hgather).
  apply gather_ok_inv in Hfst. by apply Forall2_fmap_l in Hfst.
Qed.

Lemma build_community_emits (P : Event (Vec:=Vec) -> Prop) cluster :
  (forall p, P (ELLM p)) -> P ENow -> P EUuid ->
  emits P (build_community svc cluster).
Proof.
  intros Hllm Hnow Huuid.
  unfold build_community, now, new_CommunityNode, generate_summary_description,
    llm_generate_response.
  repeat first
    [ apply reduction_loop_emits; intros pair; apply Hllm
    | apply emits_index0 | apply emits_ret | by apply emits_call
    | apply emits_bind; [|intros ?] ].
Qed.

Lemma get_community_clusters_emits (P : Event (Vec:=Vec) -> Prop) projection :
  P (EQuery QLeidenStream) -> (forall uuids, P (EGetByUuids uuids)) ->
  emits P (get_community_clusters svc projection).
Proof.
  intros Hstream Hlookup.
  unfold get_community_clusters, driver_execute_query.
  apply emits_bind; [by apply emits_call|intros records].
  apply emits_bind.
  - apply emits_for_each. intros community_map record. unfold getitem.
    apply emits_bind; [destruct (record !! _); [apply emits_ret|apply emits_raise]|].
    intros communityId.
    apply emits_bind; [destruct (record !! _); [apply emits_ret|apply emits_raise]|].
    intros entity_uuid. apply emits_ret.
  - intros community_map. apply emits_gather.
    intros task (cluster & -> & _)%list_elem_of_fmap. by apply emits_call.
Qed.

(** X9: a full rebuild never writes a community node or edge, never asks
    for an embedding and never wipes the communities: all its calls are the
    projection queries, the cluster stream, the entity lookups, the language
    model, the clock and the uuid source.  Persisting the result is left to
    the caller. *)
Theorem build_communities_persists_nothing h ev :
  ev ∈ snd (build_communities svc h) ->
  is_rebuild_call ev = true /\
  is_save_node ev = false /\ is_save_edge ev = false /\ is_embed ev = false.
Proof.
  intros Hin.
  assert (Hcall : is_rebuild_call ev = true).
  { revert h ev Hin.
    change (emits (fun ev => is_rebuild_call ev = true) (build_communities svc)).
    unfold build_communities, build_community_projection, destroy_projection,
      driver_execute_query, getitem.
    apply emits_bind.
    { apply emits_bind; [by apply emits_call|intros records].
      apply emits_bind; [apply emits_index0|intros first].
      destruct (first !! _); [apply emits_ret|apply emits_raise]. }
    intros projection.
    apply emits_bind; [by apply get_community_clusters_emits|intros clusters].
    apply emits_bind.
    { apply emits_gather. intros task (cluster & -> & _)%list_elem_of_fmap.
      by apply build_community_emits. }
    intros communities.
    apply emits_bind; [|intros; apply emits_ret].
    apply emits_bind; [by apply emits_call|intros; apply emits_ret]. }
  split; [done|]. by destruct ev as [[]| | | | | | |].
Qed.

End RebuildFacts.

(** ** Assignment and incremental update *)

Section AssignmentUpdateFacts.
Context {Vec : Type}.
Variable svc : Services (Vec:=Vec).
Implicit Types h : list (Event (Vec:=Vec)).

(** X10: an entity that already is a member of a community is assigned to
    the first community the membership lookup returns, with [is_new = false];
    the neighbour lookup is issued only when the membership lookup returned
    no row, so the neighbours' votes play no part for a member, and a failure
    of the membership lookup is raised as it is. *)
Theorem determine_entity_community_existing_member entity h :
  let lookup := QEntityCommunity (EntityNode.uuid entity) in
  let neighbours := QNeighbourCommunities (EntityNode.uuid entity) in
  (forall record rest,
     execute_query svc h lookup = Returns (record :: rest) ->
     determine_entity_community svc entity h =
     (Ok (Some (get_community_node_from_record svc record), false), [EQuery lookup])) /\
  (forall e, execute_query svc h lookup = Raises e ->
     determine_entity_community svc entity h = (Raise e, [EQuery lookup])) /\
  (EQuery neighbours ∈ snd (determine_entity_community svc entity h) <->
   execute_query svc h lookup = Returns []).
Proof.
  intros lookup neighbours. rewrite determine_entity_community_run.
  fold lookup neighbours. split_and!.
  - by intros record rest ->.
  - by intros e ->.
  - destruct (execute_query svc h lookup) as [[|record rest]|e]; cbn [snd].
    + split; [done|]. intros _.
      destruct (execute_query svc (h ++ [EQuery lookup]) neighbours); cbn [snd];
        apply list_elem_of_further, list_elem_of_here.
    + split; [|done]. by intros [=]%list_elem_of_singleton.
    + split; [|done]. by intros [=]%list_elem_of_singleton.
Qed.

(** X11: an entity without membership whose neighbours belong to no
    community stays unassigned: the result is [(None, false)], after the two
    lookups, and it is not an error. *)
Theorem determine_entity_community_no_votes entity h :
  execute_query svc h (QEntityCommunity (EntityNode.uuid entity)) = Returns [] ->
  execute_query svc (h ++ [EQuery (QEntityCommunity (EntityNode.uuid entity))])
                (QNeighbourCommunities (EntityNode.uuid entity)) = Returns [] ->
  determine_entity_community svc entity h =
  (Ok (None, false),
   [EQuery (QEntityCommunity (EntityNode.uuid entity));
    EQuery (QNeighbourCommunities (EntityNode.uuid entity))]).
Proof.
  intros Hlookup Hneighbours. rewrite determine_entity_community_run. cbv zeta.
  by rewrite Hlookup, Hneighbours.
Qed.

(** X12: when one community has strictly more votes among the neighbours
    than every other community, the entity is assigned to it, wherever its
    rows stand in the query result. *)
Theorem determine_entity_community_majority entity h records uuid :
  let lookup := QEntityCommunity (EntityNode.uuid entity) in
  let neighbours := QNeighbourCommunities (EntityNode.uuid entity) in
  execute_query svc h lookup = Returns [] ->
  execute_query svc (h ++ [EQuery lookup]) neighbours = Returns records ->
  let communities := map (get_community_node_from_record svc) records in
  uuid ∈ map CommunityNode.uuid communities ->
  (forall c, c ∈ communities -> CommunityNode.uuid c <> uuid ->
     votes communities (CommunityNode.uuid c) < votes communities uuid) ->
  exists community,
    fst (determine_entity_community svc entity h) = Ok (Some community, true) /\
    community ∈ communities /\
    CommunityNode.uuid community = uuid.
Proof.
  intros lookup neighbours Hlookup Hneighbours communities Hin Hmajority.
  assert (Hne : communities <> []).
  { intros Hnil. rewrite Hnil in Hin. by apply elem_of_nil in Hin. }
  destruct (mode_of_tally communities Hne)
    as (before & community & after & Hsplit & Hmode & Hpos & Hfind & Hbefore & Hafter).
  assert (Hmember : community ∈ communities).
  { rewrite Hsplit. apply elem_of_app. right. apply list_elem_of_here. }
  exists community. split; [|split; [done|]].
  - rewrite determine_entity_community_run. fold lookup neighbours.
    rewrite Hlookup, Hneighbours. cbv zeta. fold communities. cbn [fst].
    rewrite Hmode.
    replace (votes communities (CommunityNode.uuid community) =? 0) with false
      by (symmetry; apply Nat.eqb_neq; lia).
    by rewrite Hfind.
  - destruct (decide (CommunityNode.uuid community = uuid)) as [|Hother]; [done|].
    exfalso. pose proof (Hmajority community Hmember Hother) as Hless.
    apply list_elem_of_fmap in Hin as (winner & -> & Hwinner).
    rewrite Hsplit in Hwinner.
    apply elem_of_app in Hwinner as [Hw|[->|Hw]%elem_of_cons].
    + specialize (Hbefore winner Hw). lia.
    + done.
    + specialize (Hafter winner Hw). lia.
Qed.

(** What [update_community] does after the assignment resolved to the
    community the entity already belongs to. *)
Lemma update_community_member_run entity community ev0 h :
  determine_entity_community svc entity h = (Ok (Some community, false), ev0) ->
  let h0 := h ++ ev0 in
  let merge := ELLM (summarize_pair_prompt
                       [EntityNode.summary entity; CommunityNode.summary community]) in
  update_community svc entity h =
  match generate_response svc h0 (summarize_pair_prompt
          [EntityNode.summary entity; CommunityNode.summary community]) with
  | Raises e => (Raise e, ev0 ++ [merge])
  | Returns resp1 =>
      let new_summary := dict_get resp1 "summary" "" in
      let describe := ELLM (summary_description_prompt new_summary) in
      match generate_response svc (h0 ++ [merge]) (summary_description_prompt new_summary) with
      | Raises e => (Raise e, ev0 ++ [merge; describe])
      | Returns resp2 =>
          let new_name := dict_get resp2 "description" "" in
          let renamed := CommunityNode.set_name
                           (CommunityNode.set_summary community new_summary) new_name in
          match embed svc (h0 ++ [merge; describe]) new_name with
          | Raises e => (Raise e, ev0 ++ [merge; describe; EEmbed new_name])
          | Returns v =>
              let updated := CommunityNode.set_name_embedding renamed v in
              (match save_node svc (h0 ++ [merge; describe; EEmbed new_name]) updated with
               | Returns _ => Ok tt
               | Raises e => Raise e
               end,
               ev0 ++ [merge; describe; EEmbed new_name; ESaveNode updated])
          end
      end
  end.
Proof.
  intros Hassign h0 merge. subst h0 merge.
  unfold update_community. unfold bind at 1. rewrite Hassign.
  cbv beta iota zeta delta [bind ret call now index0 generate_name_embedding
    summarize_pair generate_summary_description llm_generate_response
    build_community_edges map fst snd].
  destruct (generate_response svc (h ++ ev0) _) as [resp1|e]; [|done].
  cbv beta iota. rewrite <- ?app_assoc, ?app_nil_r. cbn [app].
  destruct (generate_response svc _ _) as [resp2|e]; [|done].
  cbv beta iota. rewrite <- ?app_assoc, ?app_nil_r.
  cbn [app CommunityNode.set_name CommunityNode.set_summary CommunityNode.uuid
       CommunityNode.group_id CommunityNode.name].
  destruct (embed svc _ _) as [v|e]; [|done].
  cbv beta iota. rewrite <- ?app_assoc, ?app_nil_r. cbn [app].
  by destruct (save_node svc _ _) as [[]|e].
Qed.

Lemma lookups_only ev0 entity h r (p : Event (Vec:=Vec) -> bool) :
  determine_entity_community svc entity h = (r, ev0) ->
  (forall ev, is_membership_lookup ev = true -> p ev = false) ->
  calls p ev0 = 0.
Proof.
  intros Hassign Hp. pose proof (assignment_calls svc entity h p Hp) as Hc.
  by rewrite Hassign in Hc.
Qed.

(** X13: for an entity that already belongs to the community, a run of
    [update_community] that completes has issued, after the membership
    lookup, exactly the pair merge, the naming, one regeneration of the name
    embedding and the save of the updated node: no edge is built or saved and
    the clock is not read.  It completes whenever the language model, the
    embedder and the node save answer. *)
Theorem update_community_existing_member entity h community ev0 :
  determine_entity_community svc entity h = (Ok (Some community, false), ev0) ->
  (forall ev, update_community svc entity h = (Ok tt, ev) ->
     exists new_summary new_name v,
       let updated := CommunityNode.set_name_embedding
                        (CommunityNode.set_name
                           (CommunityNode.set_summary community new_summary) new_name) v in
       ev = ev0 ++ [ELLM (summarize_pair_prompt [EntityNode.summary entity;
                                                 CommunityNode.summary community]);
                    ELLM (summary_description_prompt new_summary);
                    EEmbed new_name; ESaveNode updated] /\
       calls is_save_edge ev = 0) /\
  ((forall h' p, exists resp, generate_response svc h' p = Returns resp) ->
   (forall h' text, exists v, embed svc h' text = Returns v) ->
   (forall h' node, save_node svc h' node = Returns tt) ->
   exists ev, update_community svc entity h = (Ok tt, ev)).
Proof.
  intros Hassign.
  pose proof (update_community_member_run entity community ev0 h Hassign) as Hrun.
  cbv zeta in Hrun.
  split.
  - intros ev Hok. rewrite Hrun in Hok.
    destruct (generate_response svc (h ++ ev0) _) as [resp1|e]; [|done].
    destruct (generate_response svc _ _) as [resp2|e]; [|done].
    destruct (embed svc _ _) as [v|e]; [|done].
    injection Hok as _ <-.
    eexists _, _, v. cbv zeta. split; [reflexivity|].
    rewrite calls_app, (lookups_only ev0 entity h _ _ Hassign)
      by (by intros [[]| | | | | | |]).
    done.
  - intros Hllm Hembed Hnode. rewrite Hrun.
    destruct (Hllm (h ++ ev0) (summarize_pair_prompt
                [EntityNode.summary entity; CommunityNode.summary community]))
      as [resp1 ->].
    match goal with |- context [generate_response svc ?h' ?p] =>
      destruct (Hllm h' p) as [resp2 ->] end.
    match goal with |- context [embed svc ?h' ?t] =>
      destruct (Hembed h' t) as [v ->] end.
    rewrite Hnode. by eexists.
Qed.

Lemma lookup_keeps_identity entity community (ev : Event (Vec:=Vec)) :
  is_membership_lookup ev = true -> keeps_identity entity community ev.
Proof. by destruct ev as [[]| | | | | | |]. Qed.

(** X14: whatever [update_community] saves keeps the identity of the
    assigned community: a saved node has its [uuid], [group_id], [created_at]
    and labels (only summary, name and embedding change), and a saved edge
    goes from that community to the entity, in the community's group. *)
Theorem update_community_keeps_identity entity h community is_new ev0 ev :
  determine_entity_community svc entity h = (Ok (Some community, is_new), ev0) ->
  ev ∈ snd (update_community svc entity h) ->
  keeps_identity entity community ev.
Proof.
  intros Hassign.
  assert (Hev0 : forall ev, ev ∈ ev0 -> keeps_identity entity community ev).
  { intros ev' Hin. apply lookup_keeps_identity.
    apply (determine_entity_community_events svc entity h). by rewrite Hassign. }
  destruct is_new.
  - rewrite (update_community_new_run svc entity community ev0 h Hassign). cbv zeta.
    destruct (generate_response svc (h ++ ev0) _) as [resp1|e]; cbn [snd];
      [|intros [?|[->|?%elem_of_nil]%elem_of_cons]%elem_of_app; by auto].
    destruct (generate_response svc _ _) as [resp2|e]; cbn [snd];
      [|intros [?|Hin]%elem_of_app; [by auto|];
        repeat (apply elem_of_cons in Hin as [->|Hin]; [done|]);
        by apply elem_of_nil in Hin].
    destruct (save_edge svc _ _) as [[]|e]; cbn [snd];
      [|intros [?|Hin]%elem_of_app; [by auto|];
        repeat (apply elem_of_cons in Hin as [->|Hin]; [done|]);
        by apply elem_of_nil in Hin].
    destruct (embed svc _ _) as [v|e]; cbn [snd];
      intros [?|Hin]%elem_of_app; try (by auto);
      repeat (apply elem_of_cons in Hin as [->|Hin]; [done|]);
      by apply elem_of_nil in Hin.
  - rewrite (update_community_member_run entity community ev0 h Hassign). cbv zeta.
    destruct (generate_response svc (h ++ ev0) _) as [resp1|e]; cbn [snd];
      [|intros [?|[->|?%elem_of_nil]%elem_of_cons]%elem_of_app; by auto].
    destruct (generate_response svc _ _) as [resp2|e]; cbn [snd];
      [|intros [?|Hin]%elem_of_app; [by auto|];
        repeat (apply elem_of_cons in Hin as [->|Hin]; [done|]);
        by apply elem_of_nil in Hin].
    destruct (embed svc _ _) as [v|e]; cbn [snd];
      intros [?|Hin]%elem_of_app; try (by auto);
      repeat (apply elem_of_cons in Hin as [->|Hin]; [done|]);
      by apply elem_of_nil in Hin.
Qed.

(** A trace made of the assignment lookups and a known list of later calls. *)
Lemma calls_after_lookups ev0 entity h r (p : Event (Vec:=Vec) -> bool) later :
  determine_entity_community svc entity h = (r, ev0) ->
  (forall ev, is_membership_lookup ev = true -> p ev = false) ->
  calls p (ev0 ++ later) = calls p later.
Proof.
  intros Hassign Hp. by rewrite calls_app, (lookups_only ev0 entity h r p Hassign Hp).
Qed.

(** Closes a goal on the numbers of writes of one run of [update_community]
    whose trace is the lookups followed by an explicit list of calls. *)
Ltac count_writes Hassign :=
  cbn [fst snd];
  rewrite ?(calls_after_lookups _ _ _ _ is_save_edge _ Hassign)
    by (by intros [[]| | | | | | |]);
  rewrite ?(calls_after_lookups _ _ _ _ is_embed _ Hassign)
    by (by intros [[]| | | | | | |]);
  rewrite ?(calls_after_lookups _ _ _ _ is_save_node _ Hassign)
    by (by intros [[]| | | | | | |]);
  rewrite ?(calls_after_lookups _ _ _ _ is_effectful _ Hassign)
    by (by intros [[]| | | | | | |]);
  unfold calls; cbn [List.filter is_save_edge is_embed is_save_node length];
  repeat split; try done; try lia; auto.

(** X15: in every run of [update_community], whatever the collaborators
    answer, at most one edge save, one embedding and one node save are
    issued; the node is saved only after its name embedding was regenerated;
    and a run that completes has either saved the node or, for an unassigned
    entity, called nothing but the lookups. *)
Theorem update_community_writes entity h :
  let run := update_community svc entity h in
  calls is_save_edge (snd run) <= 1 /\
  calls is_embed (snd run) <= 1 /\
  calls is_save_node (snd run) <= 1 /\
  (calls is_save_node (snd run) = 1 -> calls is_embed (snd run) = 1) /\
  (fst run = Ok tt ->
   calls is_save_node (snd run) = 1 \/ calls is_effectful (snd run) = 0).
Proof.
  intros run. subst run.
  destruct (determine_entity_community svc entity h)
    as [[[[community|] is_new]|e|] ev0] eqn:Hassign.
  - destruct is_new.
    + rewrite (update_community_new_run svc entity community ev0 h Hassign). cbv zeta.
      destruct (generate_response svc (h ++ ev0) _) as [resp1|e];
        [|count_writes Hassign].
      destruct (generate_response svc _ _) as [resp2|e]; [|count_writes Hassign].
      destruct (save_edge svc _ _) as [[]|e]; [|count_writes Hassign].
      destruct (embed svc _ _) as [v|e]; count_writes Hassign.
    + rewrite (update_community_member_run entity community ev0 h Hassign). cbv zeta.
      destruct (generate_response svc (h ++ ev0) _) as [resp1|e];
        [|count_writes Hassign].
      destruct (generate_response svc _ _) as [resp2|e]; [|count_writes Hassign].
      destruct (embed svc _ _) as [v|e]; count_writes Hassign.
  - unfold update_community. erewrite bind_ok by exact Hassign.
    unfold ret. cbn [fst snd]. rewrite app_nil_r.
    rewrite <- (app_nil_r ev0). count_writes Hassign.
  - unfold update_community. erewrite bind_raise by exact Hassign.
    rewrite <- (app_nil_r ev0). count_writes Hassign.
  - unfold update_community. erewrite bind_diverge by exact Hassign.
    rewrite <- (app_nil_r ev0). count_writes Hassign.
Qed.

(** X16: when the language model fails, at the merge or at the naming,
    [update_community] raises that failure and has written nothing: no edge
    save, no node save and no embedding call were issued. *)
Theorem update_community_llm_failure entity h community is_new ev0 e :
  determine_entity_community svc entity h = (Ok (Some community, is_new), ev0) ->
  let merge := summarize_pair_prompt
                 [EntityNode.summary entity; CommunityNode.summary community] in
  generate_response svc (h ++ ev0) merge = Raises e \/
  (exists resp,
     generate_response svc (h ++ ev0) merge = Returns resp /\
     generate_response svc (h ++ ev0 ++ [ELLM merge])
       (summary_description_prompt (dict_get resp "summary" "")) = Raises e) ->
  let run := update_community svc entity h in
  fst run = Raise e /\
  calls is_save_edge (snd run) = 0 /\
  calls is_save_node (snd run) = 0 /\
  calls is_embed (snd run) = 0.
Proof.
  intros Hassign merge Hfail run. subst run merge.
  assert (Hrun : exists later,
    update_community svc entity h = (Raise e, ev0 ++ later) /\
    forall ev, ev ∈ later -> exists p, ev = ELLM p).
  { destruct is_new.
    - rewrite (update_community_new_run svc entity community ev0 h Hassign). cbv zeta.
      destruct Hfail as [->|(resp & -> & Hnaming)].
      + exists [ELLM (summarize_pair_prompt
                  [EntityNode.summary entity; CommunityNode.summary community])].
        split; [done|]. intros ev ->%list_elem_of_singleton. by eexists.
      + rewrite <- app_assoc, Hnaming.
        exists [ELLM (summarize_pair_prompt
                  [EntityNode.summary entity; CommunityNode.summary community]);
                ELLM (summary_description_prompt (dict_get resp "summary" ""))].
        split; [done|].
        intros ev [->|[->|?%elem_of_nil]%elem_of_cons]%elem_of_cons; [by eexists..|done].
    - rewrite (update_community_member_run entity community ev0 h Hassign). cbv zeta.
      destruct Hfail as [->|(resp & -> & Hnaming)].
      + exists [ELLM (summarize_pair_prompt
                  [EntityNode.summary entity; CommunityNode.summary community])].
        split; [done|]. intros ev ->%list_elem_of_singleton. by eexists.
      + rewrite <- app_assoc, Hnaming.
        exists [ELLM (summarize_pair_prompt
                  [EntityNode.summary entity; CommunityNode.summary community]);
                ELLM (summary_description_prompt (dict_get resp "summary" ""))].
        split; [done|].
        intros ev [->|[->|?%elem_of_nil]%elem_of_cons]%elem_of_cons; [by eexists..|done]. }
  destruct Hrun as (later & -> & Hllm). cbn [fst snd]. split; [done|].
  split_and!; apply calls_none; intros ev [Hin|Hin]%elem_of_app;
    try (by destruct (Hllm ev Hin) as [p ->]);
    assert (Hlookup : is_membership_lookup ev = true)
      by (apply (determine_entity_community_events svc entity h); by rewrite Hassign);
    by destruct ev as [[]| | | | | | |].
Qed.

End AssignmentUpdateFacts.

(** ** The request-scoped client *)

Section DependencyFacts.
Context {Driver EmbeddedNode X : Type}.
Variable client_svc : ClientServices (Driver:=Driver) (EmbeddedNode:=EmbeddedNode) (X:=X).
Implicit Types h : list (ClientEvent (Driver:=Driver) (EmbeddedNode:=EmbeddedNode) (X:=X)).
Implicit Types client : ZepClient.t Driver.

(** X17: each override of [get_graphiti] touches its own field only: after
    the configuration the base url, the api key and the model are the
    settings' values where given and the constructed client's otherwise, the
    driver is the constructed one, and configuring twice changes nothing
    more. *)
Theorem configure_fields settings client :
  let configured := configure settings client in
  let llm := ZepClient.llm_client client in
  let llm' := ZepClient.llm_client configured in
  ZepClient.driver configured = ZepClient.driver client /\
  LLMConfig.base_url (LLMClientState.config llm')
  = match Settings.openai_base_url settings with
    | Some v => Some v
    | None => LLMConfig.base_url (LLMClientState.config llm)
    end /\
  LLMConfig.api_key (LLMClientState.config llm')
  = match Settings.openai_api_key settings with
    | Some v => Some v
    | None => LLMConfig.api_key (LLMClientState.config llm)
    end /\
  LLMClientState.model llm'
  = match Settings.model_name settings with
    | Some v => Some v
    | None => LLMClientState.model llm
    end /\
  configure settings configured = configured.
Proof.
  destruct settings as [uri user password [base|] [key|] [model|]],
    client as [driver [[base0 key0] model0]]; cbv; done.
Qed.

(** X18: once the client is constructed, [get_graphiti] hands the configured
    client to the request and closes that same client exactly once, as its
    last call, whether the request returned or raised; when the close
    succeeds the outcome of the request, value or exception, is passed on
    unchanged. *)
Theorem get_graphiti_closes_client {A} settings
    (request : ZepClient.t Driver -> comp (Ev:=ClientEvent) (E:=Exn) A) h client0 :
  let construct := EZepGraphiti (Settings.neo4j_uri settings) (Settings.neo4j_user settings)
                                (Settings.neo4j_password settings) in
  ZepGraphiti_init client_svc h (Settings.neo4j_uri settings) (Settings.neo4j_user settings)
                   (Settings.neo4j_password settings) = Returns client0 ->
  let client := configure settings client0 in
  let served := request client (h ++ [construct]) in
  fst served <> Diverge ->
  let run := get_graphiti client_svc settings request h in
  snd run = [construct] ++ snd served ++ [EClose client] /\
  calls is_close (snd run) = S (calls is_close (snd served)) /\
  fst run = match ZepGraphiti_close client_svc (h ++ [construct] ++ snd served) client with
            | Returns _ => fst served
            | Raises e => Raise e
            end.
Proof.
  intros construct Hinit client served Hnd run.
  assert (Hrun : run =
    (match ZepGraphiti_close client_svc (h ++ [construct] ++ snd served) client with
     | Returns _ => fst served
     | Raises e => Raise e
     end, [construct] ++ snd served ++ [EClose client])).
  { subst run. unfold get_graphiti, bind, call at 1. rewrite Hinit.
    fold construct client. unfold try_finally. fold served.
    destruct served as [[a|e|] ev]; cbn [fst snd] in *; [| |done];
      unfold call; rewrite <- app_assoc;
      by destruct (ZepGraphiti_close client_svc _ client) as [[]|?]. }
  rewrite Hrun. cbn [fst snd]. split; [done|]. split; [|done].
  rewrite !calls_app. subst construct. unfold calls.
  cbn [List.filter is_close length]. lia.
Qed.

(** X19: [save_entity_node] asks for the name embedding of the node built
    from its arguments, then saves the node that call answered with and
    returns that same node: when both calls go through it returns the node
    after exactly these two calls.  When the embedding fails the failure is
    raised and nothing is saved; when the save fails nothing is returned. *)
Theorem save_entity_node_saves_what_it_returns name uuid group_id summary h :
  let new_node := EntityNode.mk uuid name group_id summary in
  let run := save_entity_node client_svc name uuid group_id summary h in
  (forall node,
     EntityNode_generate_name_embedding client_svc h new_node = Returns node ->
     EntityNode_save client_svc (h ++ [EGenerateNameEmbedding new_node]) node = Returns tt ->
     run = (Ok node, [EGenerateNameEmbedding new_node; ESaveEntityNode node])) /\
  (forall node, fst run = Ok node ->
     EntityNode_generate_name_embedding client_svc h new_node = Returns node /\
     EntityNode_save client_svc (h ++ [EGenerateNameEmbedding new_node]) node = Returns tt /\
     snd run = [EGenerateNameEmbedding new_node; ESaveEntityNode node]) /\
  (forall e, EntityNode_generate_name_embedding client_svc h new_node = Raises e ->
     run = (Raise e, [EGenerateNameEmbedding new_node])) /\
  (forall node e,
     EntityNode_generate_name_embedding client_svc h new_node = Returns node ->
     EntityNode_save client_svc (h ++ [EGenerateNameEmbedding new_node]) node = Raises e ->
     run = (Raise e, [EGenerateNameEmbedding new_node; ESaveEntityNode node])).
Proof.
  intros new_node run.
  assert (Hrun : run =
    match EntityNode_generate_name_embedding client_svc h new_node with
    | Returns node =>
        (match EntityNode_save client_svc (h ++ [EGenerateNameEmbedding new_node]) node with
         | Returns _ => Ok node
         | Raises e => Raise e
         end, [EGenerateNameEmbedding new_node; ESaveEntityNode node])
    | Raises e => (Raise e, [EGenerateNameEmbedding new_node])
    end).
  { subst run. unfold save_entity_node, bind, call, ret. fold new_node.
    destruct (EntityNode_generate_name_embedding client_svc h new_node) as [node|e];
      [|done].
    by destruct (EntityNode_save client_svc _ node) as [[]|e]. }
  rewrite Hrun. clear Hrun. split_and!.
  - by intros node -> ->.
  - intros node.
    destruct (EntityNode_generate_name_embedding client_svc h new_node) as [node'|e];
      [|done].
    cbn [fst snd].
    destruct (EntityNode_save client_svc _ node') as [[]|e] eqn:Hsave; [|done].
    by intros [= <-].
  - by intros e ->.
  - by intros node e -> ->.
Qed.

End DependencyFacts.

(** ** The summary of a community of several entities *)

Section LastMergeFacts.
Context {Vec : Type}.
Variable svc : Services (Vec:=Vec).
Implicit Types h : list (Event (Vec:=Vec)).

Lemma reduction_round_of_two a b h :
  reduction_round svc [a; b] h =
  (match generate_response svc h (summarize_pair_prompt [a; b]) with
   | Returns resp => Ok [dict_get resp "summary" ""]
   | Raises e => Raise e
   end, [merge_event (a, b)]).
Proof.
  change [a; b] with ([a; b] ++ carried_list None).
  rewrite (reduction_round_run svc [a; b] None h eq_refl).
  change (zip _ _) with [(a, b)].
  rewrite !map_cons, !gather_cons, !summarize_pair_run. cbn [fst snd map gather app].
  by destruct (generate_response svc h _).
Qed.

(** A reduction over at least two summaries ends with a merge, whose answer
    is the single summary left. *)
Lemma reduction_loop_last fuel summaries h final ev :
  2 <= length summaries -> length summaries <= fuel ->
  reduction_loop svc fuel summaries h = (Ok final, ev) ->
  exists front pair resp,
    ev = front ++ [merge_event pair] /\
    generate_response svc (h ++ front) (summarize_pair_prompt [fst pair; snd pair])
    = Returns resp /\
    final = [dict_get resp "summary" ""].
Proof.
  revert summaries h final ev.
  induction fuel as [|fuel IH]; intros summaries h final ev Hlen Hfuel Hloop; [lia|].
  rewrite reduction_loop_step in Hloop by lia.
  assert (Hfst : fst (bind (reduction_round svc summaries)
                        (fun new_summaries => reduction_loop svc fuel new_summaries) h)
                 = Ok final) by (by rewrite Hloop).
  apply bind_ok_inv in Hfst as (new_summaries & ev1 & Hround & Hrest & Hev).
  rewrite Hloop in Hev. cbn [snd] in Hev.
  destruct (reduction_round_spec svc summaries h) as (_ & _ & Hnew & _).
  rewrite Hround in Hnew. specialize (Hnew new_summaries eq_refl).
  pose proof (Nat.div_mod_eq (length summaries) 2) as Hdm.
  pose proof (Nat.mod_upper_bound (length summaries) 2 ltac:(lia)) as Hmod.
  destruct (decide (length new_summaries <= 1)) as [Hone|Hmore].
  - (* the round was the last one: two summaries were left *)
    assert (Htwo : length summaries = 2) by lia.
    destruct summaries as [|a [|b [|c summaries]]]; try done.
    rewrite reduction_round_of_two in Hround.
    rewrite reduction_loop_done in Hrest, Hev by done.
    unfold ret in Hrest, Hev. cbn [fst snd] in Hrest, Hev.
    injection Hrest as <-. rewrite app_nil_r in Hev. subst ev.
    destruct (generate_response svc h _) as [resp|e] eqn:Hresp; [|done].
    injection Hround as <- <-.
    exists [], (a, b), resp. by rewrite app_nil_r.
  - destruct (reduction_loop svc fuel new_summaries (h ++ ev1)) as [r ev2] eqn:Hnext.
    cbn [fst snd] in Hrest, Hev. subst r ev.
    destruct (IH new_summaries (h ++ ev1) final ev2 ltac:(lia) ltac:(lia) Hnext)
      as (front & pair & resp & -> & Hresp & ->).
    exists (ev1 ++ front), pair, resp.
    split; [by rewrite app_assoc|]. split; [|done]. by rewrite app_assoc.
Qed.

(** X20: for a cluster of at least two entities the summary of the community
    is the answer of the language model to the last pair merge of the run
    (its [summary] field, or the empty string without one), and the naming of
    the community follows that merge directly. *)
Theorem build_community_summary_is_last_merge cluster h node edges :
  2 <= length cluster ->
  fst (build_community svc cluster h) = Ok (node, edges) ->
  exists front pair resp,
    snd (build_community svc cluster h)
    = front ++ [merge_event pair;
                ELLM (summary_description_prompt (CommunityNode.summary node));
                ENow; EUuid] /\
    generate_response svc (h ++ front) (summarize_pair_prompt [fst pair; snd pair])
    = Returns resp /\
    CommunityNode.summary node = dict_get resp "summary" "".
Proof.
  intros Hlen Hok. destruct cluster as [|first rest]; [simpl in Hlen; lia|].
  destruct (build_community_cases svc first rest h)
    as [(summary & Hloop & Hrun)|(e & _ & Hrun)]; rewrite Hrun in Hok |- *; [|done].
  destruct (reduction_loop svc _ _ h) as [r ev] eqn:Hl. cbn [fst snd] in *. subst r.
  apply reduction_loop_last in Hl as (front & pair & resp & -> & Hresp & Hsummary);
    [|by rewrite length_map..].
  injection Hsummary as ->.
  destruct (generate_response svc (h ++ front ++ _) _) as [resp'|e]; [|done].
  cbv zeta in Hok |- *. cbn [fst snd] in Hok |- *. injection Hok as <- <-.
  exists front, pair, resp. cbn [CommunityNode.summary].
  split; [by rewrite <- app_assoc|]. done.
Qed.

End LastMergeFacts.

(** ** The further properties on the stub collaborators *)

Lemma build_community_result_witness :
  exists node edges,
    fst (build_community sample_services [entity "a"; entity "b"] []) = Ok (node, edges) /\
    CommunityNode.group_id node = "g" /\ length edges = 2.
Proof.
  eexists _, _. split; [by vm_compute|].
  edestruct (build_community_result sample_services [entity "a"; entity "b"] [])
    as (first & rest & Hcluster & Hgroup & _ & _ & Hlen & _); [by vm_compute|].
  injection Hcluster as <- <-. by split.
Defined.

Lemma empty_result_is_empty_string_witness :
  generate_response (with_llm (Returns ∅) sample_services) []
                    (summarize_pair_prompt ["a"; "b"]) = Returns ∅ /\
  summarize_pair (with_llm (Returns ∅) sample_services) ("a", "b") []
  = (Ok "", [merge_event ("a", "b")]).
Proof.
  split; [reflexivity|].
  apply (proj1 (empty_result_is_empty_string (with_llm (Returns ∅) sample_services) [] ∅)
           ("a", "b")); reflexivity.
Defined.

Lemma get_community_clusters_groups_witness :
  let records : list Record :=
    [ {[ "entity_uuid" := VStr "e1"; "communityId" := VInt 1 ]};
      {[ "entity_uuid" := VStr "e2"; "communityId" := VInt 2 ]};
      {[ "entity_uuid" := VStr "e3"; "communityId" := VInt 1 ]} ] in
  execute_query sample_services [] QLeidenStream = Returns records /\
  exists ids,
    NoDup ids /\
    snd (get_community_clusters sample_services (VStr "communities") [])
    = EQuery QLeidenStream :: map (fun id => EGetByUuids (members records id)) ids /\
    sum_list (map (fun id => length (members records id)) ids) = 3.
Proof.
  intros records. split; [reflexivity|].
  destruct (get_community_clusters_groups sample_services (VStr "communities") [] records)
    as (ids & Hnd & _ & Hev & Hsum); [reflexivity| |by exists ids].
  intros record Hin.
  repeat (apply elem_of_cons in Hin as [->|Hin]; [by split; vm_compute; eexists|]).
  by apply elem_of_nil in Hin.
Defined.


Lemma build_communities_without_projection_witness :
  execute_query (streaming [] []) [] QProject = Returns [] /\
  build_communities (streaming [] []) [] = (Raise IndexError, [EQuery QProject]).
Proof.
  split; [reflexivity|].
  apply (proj1 (proj2 (build_communities_without_projection (streaming [] []) []))).
  reflexivity.
Defined.

Lemma build_communities_result_witness :
  exists nodes edges,
    fst (build_communities sample_services []) = Ok (nodes, edges) /\
    length nodes = 2 /\ length edges = 3.
Proof.
  eexists _, _. split; [by vm_compute|].
  edestruct (build_communities_result sample_services [])
    as (projection & ev1 & clusters & ev2 & Hproj & Hclusters & Hnodes & Hedges & _);
    [by vm_compute|].
  vm_compute in Hproj. injection Hproj as <- <-.
  vm_compute in Hclusters. injection Hclusters as <- <-.
  split; [exact Hnodes|exact Hedges].
Defined.

Lemma build_communities_persists_nothing_witness :
  EQuery QProject ∈ snd (build_communities sample_services []) /\
  is_save_node (EQuery (Vec:=list Z) QProject) = false.
Proof.
  assert (Hin : EQuery QProject ∈ snd (build_communities sample_services []))
    by (vm_compute; apply list_elem_of_here).
  split; [exact Hin|].
  exact (proj1 (proj2 (build_communities_persists_nothing sample_services [] _ Hin))).
Defined.

Lemma determine_entity_community_existing_member_witness :
  let record : Record := {[ "uuid" := VStr "A" ]} in
  execute_query (store_with [record] []) [] (QEntityCommunity "x") = Returns [record] /\
  fst (determine_entity_community (store_with [record] []) (entity "x") [])
  = Ok (Some (get_community_node_from_record sample_services record), false).
Proof.
  intros record. split; [reflexivity|].
  by rewrite (proj1 (determine_entity_community_existing_member (store_with [record] [])
                       (entity "x") []) record [] eq_refl).
Defined.

Lemma determine_entity_community_no_votes_witness :
  execute_query sample_services [] (QEntityCommunity "y") = Returns [] /\
  fst (determine_entity_community sample_services (entity "y") []) = Ok (None, false).
Proof.
  split; [reflexivity|].
  by rewrite (determine_entity_community_no_votes sample_services (entity "y") []
                eq_refl eq_refl).
Defined.

Lemma determine_entity_community_majority_witness :
  let records : list Record :=
    [ {[ "uuid" := VStr "Z" ]}; {[ "uuid" := VStr "Y" ]}; {[ "uuid" := VStr "Y" ]} ] in
  execute_query (store_with [] records) [EQuery (QEntityCommunity "x")]
                (QNeighbourCommunities "x") = Returns records /\
  exists community,
    fst (determine_entity_community (store_with [] records) (entity "x") [])
    = Ok (Some community, true) /\
    CommunityNode.uuid community = "Y".
Proof.
  intros records. split; [reflexivity|].
  destruct (determine_entity_community_majority (store_with [] records) (entity "x") []
              records "Y") as (community & Hrun & _ & Huuid);
    [reflexivity|reflexivity| | |by exists community].
  - vm_compute. apply list_elem_of_further, list_elem_of_here.
  - intros c Hin Hother. vm_compute in Hin.
    repeat (apply elem_of_cons in Hin as [->|Hin]; [by (vm_compute; lia) || done|]).
    by apply elem_of_nil in Hin.
Defined.

Lemma update_community_existing_member_witness :
  let record : Record := {[ "uuid" := VStr "A" ]} in
  let community := CommunityNode.mk "A" "n" "g" ["Community"] 0 "s" (@None (list Z)) in
  determine_entity_community (store_with [record] []) (entity "x") []
  = (Ok (Some community, false), [EQuery (QEntityCommunity "x")]) /\
  exists ev, update_community (store_with [record] []) (entity "x") [] = (Ok tt, ev).
Proof.
  intros record community. split; [by vm_compute|].
  apply (update_community_existing_member (store_with [record] []) (entity "x") []
           community [EQuery (QEntityCommunity "x")]);
    [by vm_compute|apply sample_llm_answers|by eexists|done].
Defined.

Lemma update_community_keeps_identity_witness :
  let community := CommunityNode.mk "A" "n" "g" ["Community"] 0 "s" (@None (list Z)) in
  let edge := CommunityEdge.mk "A" "x" 4 "g" in
  determine_entity_community sample_services (entity "x") []
  = (Ok (Some community, true),
     [EQuery (QEntityCommunity "x"); EQuery (QNeighbourCommunities "x")]) /\
  ESaveEdge edge ∈ snd (update_community sample_services (entity "x") []) /\
  keeps_identity (entity "x") community (ESaveEdge edge).
Proof.
  intros community edge.
  assert (Hin : ESaveEdge edge ∈ snd (update_community sample_services (entity "x") [])).
  { vm_compute. do 5 apply list_elem_of_further. apply list_elem_of_here. }
  split; [by vm_compute|]. split; [exact Hin|].
  apply (update_community_keeps_identity sample_services (entity "x") [] community true
           [EQuery (QEntityCommunity "x"); EQuery (QNeighbourCommunities "x")]);
    [by vm_compute|exact Hin].
Defined.

Lemma update_community_llm_failure_witness :
  let svc := with_llm (Raises (ServiceError "down")) sample_services in
  let community := CommunityNode.mk "A" "n" "g" ["Community"] 0 "s" (@None (list Z)) in
  determine_entity_community svc (entity "x") []
  = (Ok (Some community, true),
     [EQuery (QEntityCommunity "x"); EQuery (QNeighbourCommunities "x")]) /\
  fst (update_community svc (entity "x") []) = Raise (ServiceError "down") /\
  calls is_save_node (snd (update_community svc (entity "x") [])) = 0.
Proof.
  intros svc community. split; [by vm_compute|].
  destruct (update_community_llm_failure svc (entity "x") [] community true
              [EQuery (QEntityCommunity "x"); EQuery (QNeighbourCommunities "x")]
              (ServiceError "down")) as (Hraise & _ & Hnode & _);
    [by vm_compute|by left|by split].
Defined.

Lemma get_graphiti_closes_client_witness :
  let settings := Settings.mk "bolt://db" "neo4j" "secret" (Some "http://llm") None None in
  let run := get_graphiti sample_client_services settings failing_request [] in
  ZepGraphiti_init sample_client_services [] "bolt://db" "neo4j" "secret"
  = Returns (ZepClient.mk "bolt://db" (LLMClientState.mk (LLMConfig.mk None None) None)) /\
  calls is_close (snd run) = 1 /\
  fst run = Raise (ServiceError "timeout").
Proof.
  intros settings run. split; [reflexivity|].
  destruct (get_graphiti_closes_client sample_client_services settings failing_request []
              (ZepClient.mk "bolt://db" (LLMClientState.mk (LLMConfig.mk None None) None))
              eq_refl) as (_ & Hclose & Hout); [by vm_compute|].
  split; [exact Hclose|exact Hout].
Defined.

Lemma save_entity_node_saves_what_it_returns_witness :
  let new_node := EntityNode.mk "u1" "Ada" "g" "" in
  EntityNode_generate_name_embedding sample_client_services [] new_node
  = Returns (new_node, [0%Z]) /\
  EntityNode_save sample_client_services [EGenerateNameEmbedding new_node] (new_node, [0%Z])
  = Returns tt /\
  save_entity_node sample_client_services "Ada" "u1" "g" "" []
  = (Ok (new_node, [0%Z]),
     [EGenerateNameEmbedding new_node; ESaveEntityNode (new_node, [0%Z])]) /\
  EntityNode_generate_name_embedding sample_client_services []
    (EntityNode.mk "u1" "" "g" "") = Raises (ServiceError "empty input") /\
  calls is_save_entity_node (snd (save_entity_node sample_client_services "" "u1" "g" "" []))
  = 0.
Proof.
  intros new_node.
  split; [reflexivity|]. split; [reflexivity|]. split; [|split; [reflexivity|]].
  - exact (proj1 (save_entity_node_saves_what_it_returns sample_client_services
                    "Ada" "u1" "g" "" []) (new_node, [0%Z]) eq_refl eq_refl).
  - by rewrite (proj1 (proj2 (proj2 (save_entity_node_saves_what_it_returns
                                       sample_client_services "" "u1" "g" "" []))) _ eq_refl).
Defined.

Lemma build_community_summary_is_last_merge_witness :
  exists node edges resp,
    2 <= length [entity "a"; entity "b"; entity "c"] /\
    fst (build_community sample_services [entity "a"; entity "b"; entity "c"] [])
    = Ok (node, edges) /\
    CommunityNode.summary node = dict_get resp "summary" "".
Proof.
  edestruct (build_community_summary_is_last_merge sample_services
               [entity "a"; entity "b"; entity "c"] [])
    as (front & pair & resp & Hev & Hresp & Hsummary); [simpl; lia|by vm_compute|].
  eexists _, _, resp. split; [simpl; lia|]. split; [by vm_compute|exact Hsummary].
Defined.
